(** * netflow_analyzer: decoder, dispatch loop and simple DDoS detector

    A shallow embedding of
      - [NetflowParser.parse_netflow_packet]      (netflow_analyzer.py)
      - the receive/dispatch loop of [__main__]   (netflow_analyzer.py)
      - [SimpleDDoSDetector]                      (modules/simple_ddos_detector/main.py)
      - [ExampleAnalysisModule.run]               (modules/example_analysis_module/main.py)
    together with the properties the specification states about them and
    further properties read off the code.

    Python values are modelled as follows: [bytes] is [list byte]; unsigned
    wire integers are [Z]; a raised exception is the [Raise] outcome of
    [res]; calls to [log.error]/[log.info] append a [log_msg] to a log that
    is threaded through the code; a [dict] is a [gmap], or the list of its
    entries in insertion order where that order shows in the output. *)

From Stdlib Require Import ZArith QArith Lia.
From Stdlib Require Import Strings.Byte.
From stdpp Require Import base list gmap strings sorting.

Local Open Scope Z_scope.

(* ===================================================================== *)
(** ** Exceptions, outcomes and the log *)
(* ===================================================================== *)

(** The exception classes that the modelled code can raise. *)
Inductive exn : Type :=
  | StructError                      (* struct.error: wrong buffer size   *)
  | IndexError                       (* tuple index out of range          *)
  | AttributeError (attr : string)   (* object has no attribute [attr]    *)
  | ZeroDivisionError                (* int / 0                           *)
  | TypeError                        (* len() / subscript of an int       *)
  | BlockingIOError                  (* recvfrom on an empty socket       *)
  | QueueClosed                      (* ValueError: Queue is closed       *)
  | QueueEmpty                       (* queue.Empty                       *)
  | KeyError                         (* dict subscript with a missing key *)
  | OtherError (descr : string).     (* any other Exception subclass      *)

(** Outcome of running a piece of Python code. *)
Inductive res (A : Type) : Type :=
  | Return (a : A)
  | Raise (e : exn).
Arguments Return {A} a.
Arguments Raise {A} e.

#[global] Instance res_ret : MRet res := fun A a => Return a.
#[global] Instance res_bind : MBind res := fun A B k r =>
  match r with
  | Return a => k a
  | Raise e => Raise e
  end.

(** Every message the modelled code writes to the log. *)
Inductive log_msg : Type :=
  | WrongVersion (version : Z)
      (* log.error(f'Wrong netflow packet version: {header["version"]}') *)
  | MalformedPacket
      (* log.error('Malformed packet received') *)
  | PutFailed (mod_name : string) (e : exn)
      (* log.error(f'Failed to add packet to module "{mod_name}" output queue: ...') *)
  | LoopException (e : exn)
      (* log.error(f'Exception: {e}') *)
  | DetectedTarget (t : Z)
      (* log.info(f'...: Detected DDoS target: {t}') *)
  | ExitedWithException (e : exn).
      (* log.error(f'...: Exited with exception {type(e).__name__}: {e}') *)

(* ===================================================================== *)
(** ** [struct.unpack] for the network-order formats used by the parser *)
(* ===================================================================== *)

Abbreviation bytes := (list byte).

Definition byte_val (b : byte) : Z := Z.of_N (Byte.to_N b).

(** Big-endian unsigned integer held in a byte string. *)
Definition be_uint (bs : bytes) : Z :=
  fold_left (fun acc b => acc * 256 + byte_val b) bs 0.

(** The format characters that occur in [header_fmt] and [flow_fmt]. With
    the ['!'] prefix there is no alignment padding. *)
Inductive fmt_code : Type := fH | fL | fB.

Definition code_size (c : fmt_code) : nat :=
  match c with
  | fH => 2
  | fL => 4
  | fB => 1
  end%nat.

Fixpoint calcsize (fmt : list fmt_code) : nat :=
  match fmt with
  | [] => 0
  | c :: fmt' => code_size c + calcsize fmt'
  end%nat.

Fixpoint unpack_fields (fmt : list fmt_code) (data : bytes) : list Z :=
  match fmt with
  | [] => []
  | c :: fmt' =>
      be_uint (take (code_size c) data)
        :: unpack_fields fmt' (drop (code_size c) data)
  end.

(** [struct.unpack(fmt, data)]: raises [struct.error] unless the buffer has
    exactly [calcsize fmt] bytes. *)
Definition struct_unpack (fmt : list fmt_code) (data : bytes) : res (list Z) :=
  if decide (length data = calcsize fmt)
  then Return (unpack_fields fmt data)
  else Raise StructError.

(** Python slice [data[lo:hi]] for [0 <= lo <= hi]; it clamps to the end of
    [data] and never raises. *)
Definition slice (lo hi : nat) (data : bytes) : bytes :=
  take (hi - lo) (drop lo data).

(** Tuple subscript [t[i]]. *)
Definition getitem (t : list Z) (i : nat) : res Z :=
  match t !! i with
  | Some v => Return v
  | None => Raise IndexError
  end.

(* ===================================================================== *)
(** ** NetflowParser *)
(* ===================================================================== *)

(** '!HHLLLLL' *)
Definition header_fmt : list fmt_code := [fH; fH; fL; fL; fL; fL; fL].
Definition header_len : nat := calcsize header_fmt.

(** '!LLLHHLLLLHHBBBBHHBBH' *)
Definition flow_fmt : list fmt_code :=
  [fL; fL; fL; fH; fH; fL; fL; fL; fL; fH; fH; fB; fB; fB; fB; fH; fH; fB; fB; fH].
Definition flow_len : nat := calcsize flow_fmt.

Record header := Header {
  version : Z;
  nflows : Z
}.

Record flow := Flow {
  src_addr : Z;
  dst_addr : Z;
  src_port : Z;
  dst_port : Z;
  npackets : Z;
  nbytes : Z;
  tcpflags : Z;
  proto : Z
}.

Record packet := Packet {
  pk_header : header;
  pk_flows : list flow
}.

(** Body of the [for i in range(header['nflows'])] loop, for one [i]. *)
Definition parse_flow (recv_data : bytes) (i : nat) : res flow :=
  let flow_offset := (header_len + i * flow_len)%nat in
  flow_unpacked ← struct_unpack flow_fmt
                     (slice flow_offset (flow_offset + flow_len) recv_data);
  f_src_addr ← getitem flow_unpacked 0;
  f_dst_addr ← getitem flow_unpacked 1;
  f_src_port ← getitem flow_unpacked 9;
  f_dst_port ← getitem flow_unpacked 10;
  f_npackets ← getitem flow_unpacked 5;
  f_nbytes ← getitem flow_unpacked 6;
  f_tcpflags ← getitem flow_unpacked 12;
  f_proto ← getitem flow_unpacked 13;
  Return (Flow f_src_addr f_dst_addr f_src_port f_dst_port
               f_npackets f_nbytes f_tcpflags f_proto).

(** The loop itself: [flows.append(flow)] for [i] in the given range, in
    order; the first exception leaves the loop. *)
Fixpoint parse_flows (recv_data : bytes) (range : list nat) : res (list flow) :=
  match range with
  | [] => Return []
  | i :: range' =>
      f ← parse_flow recv_data i;
      fs ← parse_flows recv_data range';
      Return (f :: fs)
  end.

(** [NetflowParser.parse_netflow_packet]. The result pairs the messages
    logged during the call with its outcome; [Return None] is the Python
    [None]. *)
Definition parse_netflow_packet (recv_data : bytes)
  : list log_msg * res (option packet) :=
  match recv_data with
  | [] => ([], Return None)                       (* if recv_data: *)
  | _ =>
      match struct_unpack header_fmt (slice 0 header_len recv_data) with
      | Raise e => ([], Raise e)
      | Return header_unpacked =>
          match getitem header_unpacked 0, getitem header_unpacked 1 with
          | Raise e, _ | _, Raise e => ([], Raise e)
          | Return h_version, Return h_nflows =>
              let hdr := Header h_version h_nflows in
              if decide (h_version ≠ 5) then
                ([WrongVersion h_version], Return None)
              else
                let log1 :=
                  if decide (Z.of_nat (length recv_data)
                             ≠ Z.of_nat header_len + h_nflows * Z.of_nat flow_len)
                  then [MalformedPacket] else [] in
                match parse_flows recv_data (seq 0 (Z.to_nat h_nflows)) with
                | Raise e => (log1, Raise e)
                | Return flows => (log1, Return (Some (Packet hdr flows)))
                end
          end
      end
  end.

(** The methods of a [NetflowParser] instance, by attribute name. The class
    defines [__init__] and [parse_netflow_packet] and no other method. *)
Definition method : Type := bytes -> list log_msg * res (option packet).

Definition NetflowParser (attr : string) : option method :=
  if decide (attr = "parse_netflow_packet") then Some parse_netflow_packet
  else None.

(** [obj.attr(arg)]: a missing attribute raises [AttributeError]. *)
Definition call_method (obj : string -> option method) (attr : string)
    (arg : bytes) : list log_msg * res (option packet) :=
  match obj attr with
  | Some m => m arg
  | None => ([], Raise (AttributeError attr))
  end.

(* ===================================================================== *)
(** ** The receive/dispatch loop of [__main__] *)
(* ===================================================================== *)

(** A module's [multiprocessing.Queue], seen from the dispatcher: the
    packets put so far, and whether the queue has been closed. The queue is
    unbounded, so [put] raises only on a closed queue. *)
Record queue := Queue {
  q_closed : bool;
  q_items : list packet
}.

Definition queue_put (pack : packet) (q : queue) : res queue :=
  if q_closed q then Raise QueueClosed
  else Return (Queue false (q_items q ++ [pack])).

(** The part of [gcfg] that the loop reads and writes, and the log.
    [module_objects] maps a module name to its ['module_output_queue']. *)
Record gcfg_state := Gcfg {
  packets_total : Z;
  packets_processed : Z;
  module_objects : gmap string queue;
  main_log : list log_msg
}.

Definition add_log (msgs : list log_msg) (st : gcfg_state) : gcfg_state :=
  Gcfg (packets_total st) (packets_processed st) (module_objects st)
       (main_log st ++ msgs).

(** [module_objects.keys()]. Python enumerates a dict in insertion order,
    the model in the map's own order; each key occurs once in both. *)
Definition dict_keys {K} `{Countable K} {V} (d : gmap K V) : list K :=
  (map_to_list d).*1.

(** One round of the [for mod_name in gcfg.module_objects.keys()] loop:
    the [put] inside [try], and the [except Exception] that logs. *)
Definition put_to_module (pack : packet) (st : gcfg_state) (mod_name : string)
  : gcfg_state :=
  let attempt :=
    match module_objects st !! mod_name with
    | None => Raise KeyError
    | Some q => queue_put pack q
    end in
  match attempt with
  | Return q' =>
      Gcfg (packets_total st) (packets_processed st)
           (<[mod_name := q']> (module_objects st)) (main_log st)
  | Raise e => add_log [PutFailed mod_name e] st
  end.

(** "Send this packet to all active modules". *)
Definition send_to_modules (pack : packet) (st : gcfg_state) : gcfg_state :=
  foldl (put_to_module pack) st (dict_keys (module_objects st)).

(** Body of [for key, ev_mask in events], for one event. [recv] is the
    outcome of [key.fileobj.recvfrom(2048)]. The result is the state
    reached and the exception, if any, that leaves the [for] loop. *)
Definition handle_event (nfp : string -> option method) (st : gcfg_state)
    (recv : res bytes) : gcfg_state * option exn :=
  match recv with
  | Raise BlockingIOError => (st, None)                      (* pass *)
  | Raise e => (st, Some e)
  | Return recv_data =>
      let st1 := Gcfg (packets_total st + 1) (packets_processed st)
                      (module_objects st) (main_log st) in
      match call_method nfp "parse_packet" recv_data with
      | (msgs, Raise e) => (add_log msgs st1, Some e)
      | (msgs, Return None) => (add_log msgs st1, None)      (* if pack: *)
      | (msgs, Return (Some pack)) =>
          let st2 := add_log msgs st1 in
          let st3 := Gcfg (packets_total st2) (packets_processed st2 + 1)
                          (module_objects st2) (main_log st2) in
          (send_to_modules pack st3, None)
      end
  end.

Fixpoint handle_events (nfp : string -> option method) (st : gcfg_state)
    (events : list (res bytes)) : gcfg_state * option exn :=
  match events with
  | [] => (st, None)
  | recv :: events' =>
      match handle_event nfp st recv with
      | (st', Some e) => (st', Some e)
      | (st', None) => handle_events nfp st' events'
      end
  end.

(** One iteration of [while not gcfg.stop_event.is_set()]. [sel] is the
    outcome of [sel.select(...)], each event carrying what its [recvfrom]
    will yield. The outer [except Exception] logs and the loop goes on. *)
Definition loop_iteration (nfp : string -> option method) (st : gcfg_state)
    (sel : res (list (res bytes))) : gcfg_state :=
  match sel with
  | Raise e => add_log [LoopException e] st
  | Return events =>
      match handle_events nfp st events with
      | (st', Some e) => add_log [LoopException e] st'
      | (st', None) => st'
      end
  end.

(** The loop, for the iterations that happen before the stop event. *)
Definition main_loop (nfp : string -> option method) (st : gcfg_state)
    (iterations : list (res (list (res bytes)))) : gcfg_state :=
  foldl (loop_iteration nfp) st iterations.

(* ===================================================================== *)
(** ** SimpleDDoSDetector *)
(* ===================================================================== *)

(** [collections.defaultdict]: subscripting a missing key stores the
    default under that key and yields it. *)
Definition dd_getitem {K} `{Countable K} {V} (dflt : V) (k : K) (d : gmap K V)
  : V * gmap K V :=
  match d !! k with
  | Some v => (v, d)
  | None => (dflt, <[k := dflt]> d)
  end.

(** What [ips_state] can hold under a key: [ips_state] is a
    [defaultdict(int)], whose default is the integer 0, while [update_state]
    stores a [defaultdict(int)] of per-source counts. *)
Inductive entry : Type :=
  | EInt (n : Z)
  | EDict (srcs : gmap Z Z).

Section Detector.

(** descr['options'] *)
Variable analysis_interval : Q.
Variable ips_threshold : Z.
Variable max_avg_packet_size : Q.
Variable min_packets_per_source : Z.

(** Body of [for f in pack['flows']], for one flow. [nbytes/npackets] is
    taken as the exact quotient; the rounding of Python's float division
    is not modelled. *)
Definition update_flow (ips_state : gmap Z entry) (f : flow)
  : gmap Z entry * option exn :=
  if decide (npackets f = 0) then (ips_state, Some ZeroDivisionError)
  else
    let avg_packet_size := Qdiv (inject_Z (nbytes f)) (inject_Z (npackets f)) in
    if Qlt_le_dec avg_packet_size max_avg_packet_size then
      let st1 :=
        match ips_state !! dst_addr f with       (* if dst_addr not in ... *)
        | None => <[dst_addr f := EDict ∅]> ips_state
        | Some _ => ips_state
        end in
      (* self.ips_state[dst_addr][src_addr] += npackets *)
      let '(e, st2) := dd_getitem (EInt 0) (dst_addr f) st1 in
      match e with
      | EInt _ => (st2, Some TypeError)
      | EDict srcs =>
          let '(count, srcs1) := dd_getitem 0 (src_addr f) srcs in
          (<[dst_addr f := EDict (<[src_addr f := count + npackets f]> srcs1)]> st2,
           None)
      end
    else (ips_state, None).

(** [update_state]: the first exception leaves the loop, keeping what the
    earlier flows have stored. *)
Fixpoint update_flows (ips_state : gmap Z entry) (flows : list flow)
  : gmap Z entry * option exn :=
  match flows with
  | [] => (ips_state, None)
  | f :: flows' =>
      match update_flow ips_state f with
      | (st', Some e) => (st', Some e)
      | (st', None) => update_flows st' flows'
      end
  end.

Definition update_state (ips_state : gmap Z entry) (pack : packet)
  : gmap Z entry * option exn :=
  update_flows ips_state (pk_flows pack).

(** [self.ips_state[dst_addr][src_addr]], read. *)
Definition read_count (ips_state : gmap Z entry) (dst src : Z)
  : res Z * gmap Z entry :=
  let '(e, st1) := dd_getitem (EInt 0) dst ips_state in
  match e with
  | EInt _ => (Raise TypeError, st1)
  | EDict srcs =>
      let '(count, srcs1) := dd_getitem 0 src srcs in
      (Return count, <[dst := EDict srcs1]> st1)
  end.

(** The inner [for src_addr in ...keys()] loop with its [break]; yields
    the final [this_is_it]. *)
Fixpoint all_sources_reach (ips_state : gmap Z entry) (dst : Z)
    (srcs : list Z) : res bool * gmap Z entry :=
  match srcs with
  | [] => (Return true, ips_state)
  | src :: srcs' =>
      match read_count ips_state dst src with
      | (Raise e, st1) => (Raise e, st1)
      | (Return count, st1) =>
          if decide (count < min_packets_per_source) then (Return false, st1)
          else all_sources_reach st1 dst srcs'
      end
  end.

(** Body of [for dst_addr in self.ips_state.keys()], for one key: whether
    [dst_addr] is appended to [targets]. *)
Definition check_target (ips_state : gmap Z entry) (dst : Z)
  : res bool * gmap Z entry :=
  let '(e, st1) := dd_getitem (EInt 0) dst ips_state in
  match e with
  | EInt _ => (Raise TypeError, st1)                   (* len() of an int *)
  | EDict srcs =>
      if decide (Z.of_nat (size srcs) > ips_threshold) then
        (* self.ips_state[dst_addr].keys() *)
        let '(e2, st2) := dd_getitem (EInt 0) dst st1 in
        match e2 with
        | EInt _ => (Raise TypeError, st2)
        | EDict srcs2 => all_sources_reach st2 dst (dict_keys srcs2)
        end
      else (Return false, st1)
  end.

Fixpoint collect_targets (ips_state : gmap Z entry) (dsts : list Z)
  : res (list Z) * gmap Z entry :=
  match dsts with
  | [] => (Return [], ips_state)
  | dst :: dsts' =>
      match check_target ips_state dst with
      | (Raise e, st1) => (Raise e, st1)
      | (Return hit, st1) =>
          match collect_targets st1 dsts' with
          | (Raise e, st2) => (Raise e, st2)
          | (Return targets, st2) =>
              (Return (if hit then dst :: targets else targets), st2)
          end
      end
  end.

(** [detect_ddos_targets]: the list returned (or the exception raised)
    and [ips_state] as the call leaves it. *)
Definition detect_ddos_targets (ips_state : gmap Z entry)
  : res (list Z) * gmap Z entry :=
  collect_targets ips_state (dict_keys ips_state).

Definition report_ddos_targets (targets : list Z) : list log_msg :=
  DetectedTarget <$> targets.

(** The mutable part of a detector and its log. *)
Record detector := Detector {
  ips_state : gmap Z entry;
  start_ts : Q;
  det_log : list log_msg
}.

(** What one iteration of the [while] loop of [run] meets: the outcome of
    [self.q.get(timeout=1.0)], the clock at the interval test and the
    clock when the window is restarted. *)
Record tick := Tick {
  got : res packet;
  now_test : Q;
  now_restart : Q
}.

(** One iteration of the loop of [run]; [Some e] when [e] leaves it. *)
Definition run_iteration (d : detector) (t : tick) : detector * option exn :=
  let after_get :=
    match got t with
    | Raise QueueEmpty => (ips_state d, None)                     (* pass *)
    | Raise e => (ips_state d, Some e)
    | Return pack => update_state (ips_state d) pack
    end in
  match after_get with
  | (st1, Some e) => (Detector st1 (start_ts d) (det_log d), Some e)
  | (st1, None) =>
      if Qlt_le_dec analysis_interval (Qminus (now_test t) (start_ts d)) then
        match detect_ddos_targets st1 with
        | (Raise e, st2) => (Detector st2 (start_ts d) (det_log d), Some e)
        | (Return ddos_targets, _) =>
            let log1 :=
              if decide (Z.of_nat (length ddos_targets) > 0)
              then report_ddos_targets ddos_targets else [] in
            (Detector ∅ (now_restart t) (det_log d ++ log1), None)
        end
      else (Detector st1 (start_ts d) (det_log d), None)
  end.

(** The loop of [run] over the iterations that happen before the stop
    event; an exception ends it and is logged by the outer [except]. *)
Fixpoint run_loop (d : detector) (ticks : list tick) : detector :=
  match ticks with
  | [] => d
  | t :: ticks' =>
      match run_iteration d t with
      | (d', Some e) =>
          Detector (ips_state d') (start_ts d')
                   (det_log d' ++ [ExitedWithException e])
      | (d', None) => run_loop d' ticks'
      end
  end.

(** [run], entered at clock [now] on a newly constructed detector. *)
Definition run (now : Q) (ticks : list tick) : detector :=
  run_loop (Detector ∅ now []) ticks.

End Detector.

(* ===================================================================== *)
(** ** ExampleAnalysisModule *)
(* ===================================================================== *)

(** [port_freq_map]: a dictionary from port to count, kept as its entries
    in insertion order, which is the order [items()] enumerates and which
    decides between ports of equal count in the report. *)
Fixpoint od_get (k : Z) (d : list (Z * Z)) : option Z :=
  match d with
  | [] => None
  | (k', v) :: d' => if decide (k' = k) then Some v else od_get k d'
  end.

(** [d[k] = v]: an existing key keeps its place, a new key goes last. *)
Fixpoint od_set (k v : Z) (d : list (Z * Z)) : list (Z * Z) :=
  match d with
  | [] => [(k, v)]
  | (k', v') :: d' =>
      if decide (k' = k) then (k', v) :: d' else (k', v') :: od_set k v d'
  end.

(** [d[k] += 1] on a [defaultdict(int)]: the subscript stores 0 under a
    missing key, then the sum is stored. *)
Definition od_incr (k : Z) (d : list (Z * Z)) : list (Z * Z) :=
  let '(v, d1) :=
    match od_get k d with
    | Some v => (v, d)
    | None => (0, od_set k 0 d)
    end in
  od_set k (v + 1) d1.

(** Body of [for f in pack['flows']] in the example module. *)
Definition count_flow (port_freq_map : list (Z * Z)) (f : flow) : list (Z * Z) :=
  if decide (proto f = 6 \/ proto f = 17)               (* TCP, UDP *)
  then od_incr (dst_port f) (od_incr (src_port f) port_freq_map)
  else port_freq_map.

Definition count_packet (port_freq_map : list (Z * Z)) (pack : packet)
  : list (Z * Z) :=
  foldl count_flow port_freq_map (pk_flows pack).

(** [sorted(items, reverse=True, key=lambda item: item[1])]: decreasing
    count; the sort is stable, so items of equal count keep their order. *)
Fixpoint insert_by_freq (x : Z * Z) (l : list (Z * Z)) : list (Z * Z) :=
  match l with
  | [] => [x]
  | y :: l' => if decide (x.2 < y.2) then y :: insert_by_freq x l' else x :: y :: l'
  end.

Definition sorted_by_freq (items : list (Z * Z)) : list (Z * Z) :=
  foldr insert_by_freq [] items.

(** The messages of the example module: the report, with [top_count] and
    the ports of [port_list] in order, and the message of the outer
    [except]. *)
Inductive example_msg : Type :=
  | TopPorts (top_count : nat) (port_list : list Z)
  | ExampleExited (e : exn).

(** The processing loop, over the outcomes of [self.q.get(timeout=1.0)]
    met before the stop event. *)
Fixpoint example_loop (port_freq_map : list (Z * Z)) (gets : list (res packet))
  : list (Z * Z) * option exn :=
  match gets with
  | [] => (port_freq_map, None)
  | Raise QueueEmpty :: gets' => example_loop port_freq_map gets'       (* pass *)
  | Raise e :: _ => (port_freq_map, Some e)
  | Return pack :: gets' => example_loop (count_packet port_freq_map pack) gets'
  end.

(** [ExampleAnalysisModule.run]: what it logs. *)
Definition example_run (gets : list (res packet)) : list example_msg :=
  match example_loop [] gets with
  | (_, Some e) => [ExampleExited e]
  | (port_freq_map, None) =>
      let top_count := 10%nat in
      let ports_by_freq := sorted_by_freq port_freq_map in
      [TopPorts top_count ((take top_count ports_by_freq).*1)]
  end.

(* ===================================================================== *)
(** ** The wire format, as the specification lays it out *)
(* ===================================================================== *)

(** The big-endian integer of [width] bytes at [offset] in a datagram. *)
Definition field_at (data : bytes) (offset width : nat) : Z :=
  be_uint (take width (drop offset data)).

(** The [i]-th flow record of a datagram, read field by field at the
    offsets of the version-5 layout: a 24-byte header, then 48-byte
    records with src address at 0, dst address at 4, packets at 16, bytes
    at 20, src port at 32, dst port at 34, TCP flags at 37 and protocol
    at 38. *)
Definition wire_flow (data : bytes) (i : nat) : flow :=
  let base := (24 + 48 * i)%nat in
  {| src_addr := field_at data base 4;
     dst_addr := field_at data (base + 4) 4;
     src_port := field_at data (base + 32) 2;
     dst_port := field_at data (base + 34) 2;
     npackets := field_at data (base + 16) 4;
     nbytes := field_at data (base + 20) 4;
     tcpflags := field_at data (base + 37) 1;
     proto := field_at data (base + 38) 1 |}.

(** Byte strings for the examples, written as lists of numbers. *)
Definition ubytes (l : list Z) : bytes :=
  omap (fun z => Byte.of_N (Z.to_N z)) l.

(** The sample datagram of the specification: version 5, two flows,
    10.0.0.1:1234 -> 10.0.0.2:80 (100 packets, 6000 bytes, TCP) and
    10.0.0.3:5555 -> 10.0.0.2:80 (50 packets, 3000 bytes, TCP). *)
Definition sample_datagram : bytes :=
  ubytes ([0;5; 0;2] ++ replicate 20 0
          ++ [10;0;0;1; 10;0;0;2; 0;0;0;0; 0;0; 0;0; 0;0;0;100; 0;0;23;112;
              0;0;0;0; 0;0;0;0; 4;210; 0;80; 0; 0; 6; 0; 0;0; 0;0; 0; 0; 0;0]
          ++ [10;0;0;3; 10;0;0;2; 0;0;0;0; 0;0; 0;0; 0;0;0;50; 0;0;11;184;
              0;0;0;0; 0;0;0;0; 21;179; 0;80; 0; 0; 6; 0; 0;0; 0;0; 0; 0; 0;0]).

Definition ip (a b c d : Z) : Z := ((a * 256 + b) * 256 + c) * 256 + d.

(* ===================================================================== *)
(** ** Notions used to state the properties *)
(* ===================================================================== *)

(** What one [put] attempt leaves of a module's queue. *)
Definition deliver (pack : packet) (q : queue) : queue :=
  match queue_put pack q with
  | Return q' => q'
  | Raise _ => q
  end.

(** The exception, if any, of one round of the fan-out loop for
    [mod_name]. *)
Definition put_error (mods : gmap string queue) (mod_name : string)
  : option log_msg :=
  match mods !! mod_name with
  | None => Some (PutFailed mod_name KeyError)
  | Some q => if q_closed q then Some (PutFailed mod_name QueueClosed) else None
  end.


(** Whether the loop's decoder call yields a packet for a datagram. *)
Definition decoded (nfp : string -> option method) (recv_data : bytes) : bool :=
  match (call_method nfp "parse_packet" recv_data).2 with
  | Return (Some _) => true
  | _ => false
  end.

(** The state of [gcfg] when the loop is entered with the given modules. *)
Definition initial_gcfg (mods : gmap string queue) : gcfg_state :=
  Gcfg 0 0 mods [].

(** Every key of [ips_state] holds a per-source dictionary: what
    [update_state] establishes, starting from the empty state. *)
Definition all_dicts (st : gmap Z entry) : Prop :=
  forall dst e, st !! dst = Some e -> exists srcs, e = EDict srcs.

(** Every source recorded for a destination has reached the minimum. *)
Definition sources_reach (min_packets_per_source : Z) (srcs : gmap Z Z) : Prop :=
  forall src count, srcs !! src = Some count -> min_packets_per_source <= count.

(** The count accrued so far for a destination and a source. *)
Definition count_of (st : gmap Z entry) (dst src : Z) : Z :=
  match st !! dst with
  | Some (EDict srcs) => default 0 (srcs !! src)
  | _ => 0
  end.

(** An iteration in which nothing raises before the interval test: the
    queue is empty, or it yields a packet none of whose flows has a zero
    packet count. *)
Definition quiet_tick (t : tick) : Prop :=
  match got t with
  | Return pack => Forall (fun f => npackets f ≠ 0) (pk_flows pack)
  | Raise QueueEmpty => True
  | Raise _ => False
  end.

(** The interval test of [run]. *)
Definition window_over (analysis_interval : Q) (d : detector) (t : tick) : Prop :=
  Qlt analysis_interval (Qminus (now_test t) (start_ts d)).


(** The value ranges of the wire fields of a flow record: 32-bit addresses
    and counters, 16-bit ports, 8-bit flags and protocol. *)
Definition flow_in_range (f : flow) : Prop :=
  0 <= src_addr f < 2 ^ 32 /\ 0 <= dst_addr f < 2 ^ 32
  /\ 0 <= src_port f < 2 ^ 16 /\ 0 <= dst_port f < 2 ^ 16
  /\ 0 <= npackets f < 2 ^ 32 /\ 0 <= nbytes f < 2 ^ 32
  /\ 0 <= tcpflags f < 2 ^ 8 /\ 0 <= proto f < 2 ^ 8.

(** A module's queue after the packets [delivered] were put on it one by
    one: they are appended in order if the queue is open, and a closed
    queue stays as it is. *)
Definition extend_queue (delivered : list packet) (q : queue) : queue :=
  if q_closed q then q else Queue false (q_items q ++ delivered).

(** The effect of a stretch of the loop: the packets it has fanned out,
    the messages it has logged and the datagrams it has received. *)
Definition loop_effect (st st' : gcfg_state) : Prop :=
  exists (delivered : list packet) (new : list log_msg) (received : nat),
    module_objects st' = extend_queue delivered <$> module_objects st
    /\ packets_processed st' = packets_processed st + Z.of_nat (length delivered)
    /\ main_log st' = main_log st ++ new
    /\ packets_total st' = packets_total st + Z.of_nat received.

(** A flow whose average packet size is below the maximum. *)
Definition small_flow (max_avg_packet_size : Q) (f : flow) : Prop :=
  Qlt (Qdiv (inject_Z (nbytes f)) (inject_Z (npackets f))) max_avg_packet_size.

(** The packets that one flow contributes to the count of a destination
    and a source, and the packets that a list of flows contributes. *)
Definition accrued_one (max_avg_packet_size : Q) (dst src : Z) (f : flow) : Z :=
  if Qlt_le_dec (Qdiv (inject_Z (nbytes f)) (inject_Z (npackets f)))
                max_avg_packet_size
  then if decide (dst_addr f = dst /\ src_addr f = src) then npackets f else 0
  else 0.

Definition accrued (max_avg_packet_size : Q) (dst src : Z) (flows : list flow) : Z :=
  foldr (fun f acc => accrued_one max_avg_packet_size dst src f + acc) 0 flows.

(** A source is on record for a destination. *)
Definition recorded (st : gmap Z entry) (dst src : Z) : Prop :=
  exists srcs, st !! dst = Some (EDict srcs) /\ is_Some (srcs !! src).

(** The packets that a list of iterations takes off the queue, and the
    state that accumulating packets one after the other builds. *)
Definition packets_of (ticks : list tick) : list packet :=
  omap (fun t => match got t with Return pack => Some pack | Raise _ => None end)
       ticks.

Definition accumulate (max_avg_packet_size : Q) (st : gmap Z entry)
    (packs : list packet) : gmap Z entry :=
  foldl (fun st pack => (update_state max_avg_packet_size st pack).1) st packs.

(** How often a port occurs as source or destination port of one TCP or
    UDP flow, and of a list of flows. *)
Definition uses_one (port : Z) (f : flow) : Z :=
  if decide (proto f = 6 \/ proto f = 17)
  then (if decide (src_port f = port) then 1 else 0)
       + (if decide (dst_port f = port) then 1 else 0)
  else 0.

Definition port_uses (port : Z) (flows : list flow) : Z :=
  foldr (fun f acc => uses_one port f + acc) 0 flows.

(** The count that [port_freq_map] holds for a port (0 if none). *)
Definition freq (port_freq_map : list (Z * Z)) (port : Z) : Z :=
  default 0 (od_get port port_freq_map).

(** The flows of the packets that a list of [get] outcomes delivers. *)
Definition flows_of (gets : list (res packet)) : list flow :=
  concat (omap (fun g => match g with
                         | Return pack => Some (pk_flows pack)
                         | Raise _ => None
                         end) gets).

(** A [get] that returns a packet or finds the queue empty. *)
Definition get_ok (g : res packet) : Prop :=
  match g with
  | Return _ | Raise QueueEmpty => True
  | Raise _ => False
  end.

(** What the map is after any number of flows: keys once each, counts at
    least 1. *)
Definition freq_map_ok (d : list (Z * Z)) : Prop :=
  NoDup d.*1 /\ Forall (fun kv => 1 <= kv.2) d.

(** The order of the report: [a] comes before [b] when its count is at
    least that of [b]. *)
Definition by_freq (a b : Z * Z) : Prop := b.2 <= a.2.

(* ===================================================================== *)
(** ** Concrete inputs *)
(* ===================================================================== *)

(** The sample datagram followed by one stray byte: 121 bytes, while the
    header declares 2 flows (120 bytes). *)
Definition overlong_datagram : bytes := sample_datagram ++ ubytes [255].

(** A 24-byte version-5 header that declares one flow, with no record
    after it. *)
Definition header_only_datagram : bytes := ubytes ([0;5; 0;1] ++ replicate 20 0).

(** A one-byte datagram. *)
Definition one_byte_datagram : bytes := ubytes [0].

(** A 24-byte header of version 9 followed by one 48-byte record area. *)
Definition version9_datagram : bytes :=
  ubytes ([0;9; 0;1] ++ replicate 20 0 ++ replicate 48 7).

(** A datagram with one flow record whose packet count is 0, and the
    packet the decoder makes of it. *)
Definition zero_packets_datagram : bytes :=
  ubytes ([0;5; 0;1] ++ replicate 20 0
          ++ [10;0;0;1; 10;0;0;2; 0;0;0;0; 0;0; 0;0; 0;0;0;0; 0;0;0;0;
              0;0;0;0; 0;0;0;0; 4;210; 0;80; 0; 0; 6; 0; 0;0; 0;0; 0; 0; 0;0]).

Definition zero_packets_packet : packet :=
  Packet (Header 5 1) [Flow (ip 10 0 0 1) (ip 10 0 0 2) 1234 80 0 0 0 6].

(** The two packets of the two-window scenario. *)
Definition sample_packet : packet :=
  Packet (Header 5 2)
    [Flow (ip 10 0 0 1) (ip 10 0 0 2) 1234 80 100 6000 0 6;
     Flow (ip 10 0 0 3) (ip 10 0 0 2) 5555 80 50 3000 0 6].

Definition single_source_packet : packet :=
  Packet (Header 5 1) [Flow (ip 10 0 0 1) (ip 10 0 0 2) 1234 80 100 6000 0 6].

(** Destination 10.0.0.2 has two sources with 100 and 50 packets;
    destination 10.0.0.9 has two sources, one of them with 5 packets. *)
Definition sample_ips_state : gmap Z entry :=
  <[ip 10 0 0 2 := EDict (<[ip 10 0 0 1 := 100]> (<[ip 10 0 0 3 := 50]> ∅))]>
    (<[ip 10 0 0 9 := EDict (<[ip 10 0 0 1 := 100]> (<[ip 10 0 0 4 := 5]> ∅))]> ∅).

(** Three packets: web and DNS traffic, and one ICMP flow. *)
Definition mixed_gets : list (res packet) :=
  [Return sample_packet;
   Raise QueueEmpty;
   Return (Packet (Header 5 2)
             [Flow (ip 10 0 0 1) (ip 10 0 0 2) 5353 53 1 60 0 17;
              Flow (ip 10 0 0 1) (ip 10 0 0 2) 0 0 1 60 0 1])].

(* ===================================================================== *)
(** ** Properties of the decoder *)
(* ===================================================================== *)

Example parse_sample_datagram :
  parse_netflow_packet sample_datagram
  = ([], Return (Some (Packet (Header 5 2)
       [Flow (ip 10 0 0 1) (ip 10 0 0 2) 1234 80 100 6000 0 6;
        Flow (ip 10 0 0 3) (ip 10 0 0 2) 5555 80 50 3000 0 6]))).
Proof. vm_compute. reflexivity. Qed.

Lemma header_len_24 : header_len = 24%nat.
Proof. reflexivity. Qed.

Lemma flow_len_48 : flow_len = 48%nat.
Proof. reflexivity. Qed.

(** The [j]-th value unpacked is the field at the sum of the sizes of the
    format codes before position [j]. *)
Lemma unpack_fields_lookup (fmt : list fmt_code) (data : bytes) (j : nat) (c : fmt_code) :
  fmt !! j = Some c ->
  unpack_fields fmt data !! j
  = Some (field_at data (calcsize (take j fmt)) (code_size c)).
Proof.
  revert data j. induction fmt as [|c0 fmt IH]; intros data j Hj.
  - discriminate.
  - destruct j as [|j]; simpl in *.
    + injection Hj as ->. reflexivity.
    + rewrite (IH _ _ Hj). unfold field_at. rewrite drop_drop. reflexivity.
Qed.

(** A field that lies inside a slice is the field of the whole datagram. *)
Lemma field_at_slice (data : bytes) (lo n k w : nat) :
  (k + w <= n)%nat ->
  field_at (slice lo (lo + n) data) k w = field_at data (lo + k) w.
Proof.
  intros Hk. unfold field_at, slice.
  replace (lo + n - lo)%nat with n by lia.
  rewrite (take_drop_commute (take n (drop lo data))), take_take.
  replace ((k + w) `min` n)%nat with (k + w)%nat by lia.
  rewrite <- take_drop_commute, drop_drop. reflexivity.
Qed.

Lemma length_slice (data : bytes) (lo n : nat) :
  (lo + n <= length data)%nat -> length (slice lo (lo + n) data) = n.
Proof.
  intros Hlen. unfold slice. rewrite length_take, length_drop. lia.
Qed.

(** Subscripting the tuple unpacked from a 48-byte slice of the datagram. *)
Lemma getitem_flow_unpacked (data : bytes) (lo j k : nat) (c : fmt_code) :
  flow_fmt !! j = Some c ->
  calcsize (take j flow_fmt) = k ->
  (k + code_size c <= flow_len)%nat ->
  getitem (unpack_fields flow_fmt (slice lo (lo + flow_len) data)) j
  = Return (field_at data (lo + k) (code_size c)).
Proof.
  intros Hj Hk Hin. unfold getitem.
  rewrite (unpack_fields_lookup _ _ _ _ Hj), Hk.
  rewrite field_at_slice by exact Hin. reflexivity.
Qed.

(** A record that lies wholly inside the datagram is decoded to the fields
    at its offsets. *)
Lemma parse_flow_inside (data : bytes) (i : nat) :
  (header_len + i * flow_len + flow_len <= length data)%nat ->
  parse_flow data i = Return (wire_flow data i).
Proof.
  intros Hlen. unfold parse_flow, struct_unpack.
  rewrite length_slice by exact Hlen.
  rewrite decide_True by reflexivity. cbn [mbind res_bind].
  rewrite (getitem_flow_unpacked data _ 0 0 fL) by (reflexivity || (cbn; lia)).
  cbn [mbind res_bind].
  rewrite (getitem_flow_unpacked data _ 1 4 fL) by (reflexivity || (cbn; lia)).
  cbn [mbind res_bind].
  rewrite (getitem_flow_unpacked data _ 9 32 fH) by (reflexivity || (cbn; lia)).
  cbn [mbind res_bind].
  rewrite (getitem_flow_unpacked data _ 10 34 fH) by (reflexivity || (cbn; lia)).
  cbn [mbind res_bind].
  rewrite (getitem_flow_unpacked data _ 5 16 fL) by (reflexivity || (cbn; lia)).
  cbn [mbind res_bind].
  rewrite (getitem_flow_unpacked data _ 6 20 fL) by (reflexivity || (cbn; lia)).
  cbn [mbind res_bind].
  rewrite (getitem_flow_unpacked data _ 12 37 fB) by (reflexivity || (cbn; lia)).
  cbn [mbind res_bind].
  rewrite (getitem_flow_unpacked data _ 13 38 fB) by (reflexivity || (cbn; lia)).
  cbn [mbind res_bind].
  unfold wire_flow. rewrite header_len_24, flow_len_48.
  replace (24 + i * 48)%nat with (24 + 48 * i)%nat by lia.
  cbn [code_size]. rewrite Nat.add_0_r. reflexivity.
Qed.

(** A record that reaches past the end of the datagram makes
    [struct.unpack] raise. *)
Lemma parse_flow_truncated (data : bytes) (i : nat) :
  (length data < header_len + i * flow_len + flow_len)%nat ->
  parse_flow data i = Raise StructError.
Proof.
  intros Hlen. unfold parse_flow, struct_unpack, slice.
  rewrite decide_False; [reflexivity|].
  rewrite length_take, length_drop.
  change (calcsize flow_fmt) with flow_len.
  rewrite flow_len_48 in *. lia.
Qed.

Lemma parse_flows_inside (data : bytes) (start n : nat) :
  (header_len + (start + n) * flow_len <= length data)%nat ->
  parse_flows data (seq start n) = Return (wire_flow data <$> seq start n).
Proof.
  revert start. induction n as [|n IH]; intros start Hlen.
  - reflexivity.
  - cbn [seq parse_flows].
    rewrite parse_flow_inside by (rewrite flow_len_48 in *; lia).
    cbn [mbind res_bind].
    rewrite IH by (rewrite flow_len_48 in *; lia). reflexivity.
Qed.

(** What [parse_netflow_packet] does once the datagram holds a whole
    header: the version and the flow count are the two 16-bit fields at
    offsets 0 and 2. *)
Lemma parse_with_header (data : bytes) :
  (header_len <= length data)%nat ->
  parse_netflow_packet data
  = let h_version := field_at data 0 2 in
    let h_nflows := field_at data 2 2 in
    if decide (h_version ≠ 5) then ([WrongVersion h_version], Return None)
    else
      (if decide (Z.of_nat (length data)
                  ≠ Z.of_nat header_len + h_nflows * Z.of_nat flow_len)
       then [MalformedPacket] else [],
       match parse_flows data (seq 0 (Z.to_nat h_nflows)) with
       | Raise e => Raise e
       | Return flows => Return (Some (Packet (Header h_version h_nflows) flows))
       end).
Proof.
  intros Hlen. unfold parse_netflow_packet.
  destruct data as [|b data'].
  { rewrite header_len_24 in Hlen. simpl in Hlen. lia. }
  cbv beta iota. set (data := b :: data') in *. clearbody data.
  change (slice 0 header_len data) with (slice 0 (0 + header_len) data).
  unfold struct_unpack.
  rewrite (length_slice data 0 header_len) by (simpl; exact Hlen).
  rewrite decide_True by reflexivity.
  unfold getitem.
  rewrite (unpack_fields_lookup header_fmt _ 0 fH eq_refl).
  rewrite (unpack_fields_lookup header_fmt _ 1 fH eq_refl).
  cbn [take calcsize code_size header_fmt Nat.add].
  change (slice 0 header_len data) with (slice 0 (0 + header_len) data).
  rewrite !(field_at_slice data 0 header_len 0 2) by (rewrite header_len_24; lia).
  rewrite !(field_at_slice data 0 header_len 2 2) by (rewrite header_len_24; lia).
  cbn [Nat.add].
  destruct (decide (field_at data 0 2 ≠ 5)); [reflexivity|].
  destruct (parse_flows data _); reflexivity.
Qed.

(** A non-empty datagram shorter than the header makes the header's
    [struct.unpack] raise. *)
Lemma parse_short_header (data : bytes) :
  (0 < length data < header_len)%nat ->
  parse_netflow_packet data = ([], Raise StructError).
Proof.
  intros [Hpos Hlen]. unfold parse_netflow_packet.
  destruct data as [|b data']; [simpl in Hpos; lia|].
  cbv beta iota. set (data := b :: data') in *. clearbody data.
  unfold struct_unpack, slice.
  rewrite decide_False; [reflexivity|].
  rewrite length_take, length_drop.
  change (calcsize header_fmt) with header_len. lia.
Qed.

(** C1. For every version-5 datagram whose length is
    header_size + N * flow_record_size, N being the flow count declared in
    its header, [parse_netflow_packet] logs nothing and returns a packet
    whose header carries version 5 and count N and whose flow list has
    exactly N records; the [i]-th record, in wire order, holds the
    big-endian integers found at the fixed offsets of the [i]-th 48-byte
    record of the datagram. *)
Theorem parse_valid_v5_datagram (data : bytes) (N : nat) :
  length data = (header_len + N * flow_len)%nat ->
  field_at data 0 2 = 5 ->
  field_at data 2 2 = Z.of_nat N ->
  exists flows : list flow,
    parse_netflow_packet data
    = ([], Return (Some (Packet (Header 5 (Z.of_nat N)) flows)))
    /\ length flows = N
    /\ forall i : nat, (i < N)%nat -> flows !! i = Some (wire_flow data i).
Proof.
  intros Hlen Hver Hn. exists (wire_flow data <$> seq 0 N).
  split; [|split].
  - rewrite parse_with_header by lia. cbn zeta. rewrite Hver, Hn.
    rewrite decide_False by (intros H; apply H; reflexivity).
    rewrite decide_False
      by (intros H; apply H; rewrite Hlen, flow_len_48, header_len_24; lia).
    rewrite Nat2Z.id, parse_flows_inside by (rewrite Hlen; simpl; lia).
    reflexivity.
  - rewrite length_fmap, length_seq. reflexivity.
  - intros i Hi. rewrite list_lookup_fmap, lookup_seq_lt by exact Hi.
    reflexivity.
Qed.

Lemma parse_valid_v5_datagram_witness :
  exists flows : list flow,
    parse_netflow_packet sample_datagram
    = ([], Return (Some (Packet (Header 5 (Z.of_nat 2)) flows)))
    /\ length flows = 2%nat
    /\ forall i : nat, (i < 2)%nat -> flows !! i = Some (wire_flow sample_datagram i).
Proof.
  apply (parse_valid_v5_datagram sample_datagram 2); reflexivity.
Defined.

(** A datagram that is longer than its header declares: the size test
    logs, and the declared records are decoded and returned all the same. *)
Lemma parse_overlong (data : bytes) (N : nat) :
  (header_len + N * flow_len < length data)%nat ->
  field_at data 0 2 = 5 ->
  field_at data 2 2 = Z.of_nat N ->
  parse_netflow_packet data
  = ([MalformedPacket],
     Return (Some (Packet (Header 5 (Z.of_nat N)) (wire_flow data <$> seq 0 N)))).
Proof.
  intros Hlen Hver Hn.
  rewrite parse_with_header by lia. cbn zeta. rewrite Hver, Hn.
  rewrite decide_False by (intros H; apply H; reflexivity).
  rewrite decide_True by (rewrite flow_len_48, header_len_24 in *; lia).
  rewrite Nat2Z.id, parse_flows_inside
    by (rewrite flow_len_48, header_len_24 in *; simpl; lia).
  reflexivity.
Qed.

(** C2 (code at the failing input). The length of [overlong_datagram]
    differs from header_size + flow_count * flow_record_size, and
    [parse_netflow_packet] logs 'Malformed packet received' and then
    returns a packet with the two declared records instead of [None]. *)
Theorem parse_overlong_datagram_returns_packet :
  Z.of_nat (length overlong_datagram)
    ≠ Z.of_nat header_len + field_at overlong_datagram 2 2 * Z.of_nat flow_len
  /\ parse_netflow_packet overlong_datagram
     = ([MalformedPacket],
        Return (Some (Packet (Header 5 2)
          [Flow (ip 10 0 0 1) (ip 10 0 0 2) 1234 80 100 6000 0 6;
           Flow (ip 10 0 0 3) (ip 10 0 0 2) 5555 80 50 3000 0 6]))).
Proof. split; [vm_compute; discriminate | vm_compute; reflexivity]. Qed.

(** C9 (code at the failing inputs). On a one-byte datagram the header's
    [struct.unpack] raises [struct.error]; on a whole header that declares
    a record which is not there, the size test logs 'Malformed packet
    received' and the record's [struct.unpack] raises [struct.error]. In
    both cases the call raises instead of returning. *)
Theorem parse_short_datagram_raises :
  parse_netflow_packet one_byte_datagram = ([], Raise StructError)
  /\ parse_netflow_packet header_only_datagram
     = ([MalformedPacket], Raise StructError).
Proof. split; vm_compute; reflexivity. Qed.

(** Every datagram that is cut short of its declared records raises. *)
Lemma parse_truncated (data : bytes) (N : nat) :
  (header_len <= length data < header_len + N * flow_len)%nat ->
  field_at data 0 2 = 5 ->
  field_at data 2 2 = Z.of_nat N ->
  parse_netflow_packet data = ([MalformedPacket], Raise StructError).
Proof.
  intros [Hhdr Hlen] Hver Hn.
  rewrite parse_with_header by exact Hhdr. cbn zeta. rewrite Hver, Hn.
  rewrite decide_False by (intros H; apply H; reflexivity).
  rewrite decide_True by (rewrite flow_len_48, header_len_24 in *; lia).
  rewrite Nat2Z.id.
  assert (Hraise : forall n start,
             (length data < header_len + (start + n) * flow_len)%nat ->
             (header_len + start * flow_len <= length data)%nat ->
             parse_flows data (seq start n) = Raise StructError).
  { clear. induction n as [|n IH]; intros start Hlt Hge.
    - rewrite Nat.add_0_r in Hlt. lia.
    - cbn [seq parse_flows].
      destruct (decide (length data < header_len + start * flow_len + flow_len)%nat)
        as [Hcut|Hfit].
      + rewrite parse_flow_truncated by exact Hcut. reflexivity.
      + rewrite parse_flow_inside by (rewrite flow_len_48 in *; lia).
        cbn [mbind res_bind].
        rewrite IH; [reflexivity| |]; rewrite flow_len_48 in *; lia. }
  rewrite (Hraise N 0%nat)
    by (clear Hraise; rewrite flow_len_48, header_len_24 in *; simpl; lia).
  reflexivity.
Qed.

(* ===================================================================== *)
(** ** Properties of the dispatch loop *)
(* ===================================================================== *)

Lemma put_to_module_objects (pack : packet) (st : gcfg_state) (k name : string) :
  module_objects (put_to_module pack st k) !! name
  = if decide (name = k) then deliver pack <$> module_objects st !! name
    else module_objects st !! name.
Proof.
  unfold put_to_module, deliver, queue_put.
  destruct (decide (name = k)) as [->|Hne].
  - destruct (module_objects st !! k) as [q|] eqn:Hq; cbn; [|exact Hq].
    destruct (q_closed q) eqn:Hc; cbn.
    + exact Hq.
    + rewrite lookup_insert_eq. reflexivity.
  - destruct (module_objects st !! k) as [q|]; [|reflexivity].
    destruct (q_closed q); cbn; [reflexivity|].
    rewrite lookup_insert_ne by congruence. reflexivity.
Qed.

Lemma put_to_module_log (pack : packet) (st : gcfg_state) (k : string) :
  main_log (put_to_module pack st k)
  = main_log st ++ option_list (put_error (module_objects st) k).
Proof.
  unfold put_to_module, put_error, queue_put.
  destruct (module_objects st !! k) as [q|]; [|reflexivity].
  destruct (q_closed q); cbn; [reflexivity|].
  rewrite app_nil_r. reflexivity.
Qed.

Lemma put_to_module_counters (pack : packet) (st : gcfg_state) (k : string) :
  packets_total (put_to_module pack st k) = packets_total st
  /\ packets_processed (put_to_module pack st k) = packets_processed st.
Proof.
  unfold put_to_module.
  destruct (module_objects st !! k) as [q|]; [|split; reflexivity].
  destruct (queue_put pack q); split; reflexivity.
Qed.

Lemma put_error_other (pack : packet) (st : gcfg_state) (k name : string) :
  name ≠ k ->
  put_error (module_objects (put_to_module pack st k)) name
  = put_error (module_objects st) name.
Proof.
  intros Hne. unfold put_error.
  rewrite put_to_module_objects, decide_False by exact Hne. reflexivity.
Qed.

(** The fan-out loop over any list of distinct names. *)
Lemma fan_out_over (pack : packet) (ks : list string) :
  NoDup ks ->
  forall st : gcfg_state,
    let st' := foldl (put_to_module pack) st ks in
    (forall name,
        module_objects st' !! name
        = if decide (name ∈ ks) then deliver pack <$> module_objects st !! name
          else module_objects st !! name)
    /\ main_log st' = main_log st ++ omap (put_error (module_objects st)) ks
    /\ packets_total st' = packets_total st
    /\ packets_processed st' = packets_processed st.
Proof.
  induction 1 as [|k ks Hk Hnd IH]; intros st; cbn zeta.
  - cbn [foldl omap list_omap]. rewrite app_nil_r.
    split; [|split; [|split]]; reflexivity.
  - cbn [foldl].
    destruct (IH (put_to_module pack st k)) as (Hmods & Hlog & Htot & Hproc).
    destruct (put_to_module_counters pack st k) as [Htot1 Hproc1].
    split; [|split; [|split]]; [| |congruence|congruence].
    + intros name. rewrite Hmods, put_to_module_objects.
      destruct (decide (name = k)) as [->|Hne].
      * rewrite decide_False by exact Hk.
        rewrite decide_True by apply list_elem_of_here. reflexivity.
      * destruct (decide (name ∈ ks)) as [Hin|Hout].
        -- rewrite decide_True by (apply list_elem_of_further; exact Hin).
           reflexivity.
        -- rewrite decide_False; [reflexivity|].
           intros [->|Hin]%elem_of_cons; [apply Hne; reflexivity|exact (Hout Hin)].
    + rewrite Hlog, put_to_module_log, <- app_assoc. f_equal.
      cbn [omap list_omap].
      assert (Hsame : omap (put_error (module_objects (put_to_module pack st k))) ks
                      = omap (put_error (module_objects st)) ks).
      { clear -Hk. induction ks as [|k' ks IHks]; [reflexivity|].
        cbn [omap list_omap].
        rewrite (put_error_other pack st k k')
          by (intros ->; apply Hk, list_elem_of_here).
        rewrite IHks; [reflexivity|].
        intros Hin. apply Hk, list_elem_of_further, Hin. }
      rewrite Hsame.
      destruct (put_error (module_objects st) k); reflexivity.
Qed.

Lemma elem_of_dict_keys {K} `{Countable K} {V} (d : gmap K V) (k : K) :
  k ∈ dict_keys d <-> is_Some (d !! k).
Proof.
  unfold dict_keys. rewrite list_elem_of_fmap. split.
  - intros ([k' v] & -> & Hin). apply elem_of_map_to_list in Hin.
    exists v. exact Hin.
  - intros [v Hv]. exists (k, v). split; [reflexivity|].
    apply elem_of_map_to_list. exact Hv.
Qed.





(** The counters after one event. *)
Lemma handle_event_counters (nfp : string -> option method) (st : gcfg_state)
    (recv : res bytes) :
  let st' := (handle_event nfp st recv).1 in
  match recv with
  | Return recv_data =>
      packets_total st' = packets_total st + 1
      /\ packets_processed st'
         = packets_processed st + (if decoded nfp recv_data then 1 else 0)
  | Raise _ =>
      packets_total st' = packets_total st
      /\ packets_processed st' = packets_processed st
  end.
Proof.
  cbn zeta. destruct recv as [recv_data|e].
  - unfold handle_event, decoded.
    destruct (call_method nfp "parse_packet" recv_data) as [msgs [[pack|]|e]];
      cbn [fst snd].
    + destruct (fan_out_over pack _ (NoDup_fst_map_to_list (module_objects st))
                  (Gcfg (packets_total st + 1) (packets_processed st + 1)
                        (module_objects st) (main_log st ++ msgs)))
        as (_ & _ & Htot & Hproc).
      cbn in Htot, Hproc. split; assumption.
    + cbn. split; lia.
    + cbn. split; lia.
  - destruct e; cbn; split; reflexivity.
Qed.

Lemma handle_event_invariant (nfp : string -> option method) (st : gcfg_state)
    (recv : res bytes) :
  packets_processed st <= packets_total st ->
  packets_processed (handle_event nfp st recv).1
  <= packets_total (handle_event nfp st recv).1.
Proof.
  intros Hinv. pose proof (handle_event_counters nfp st recv) as H.
  cbn zeta in H. destruct recv as [recv_data|e].
  - destruct H as [-> ->]. destruct (decoded nfp recv_data); lia.
  - destruct H as [-> ->]. exact Hinv.
Qed.

Lemma handle_events_invariant (nfp : string -> option method)
    (events : list (res bytes)) (st : gcfg_state) :
  packets_processed st <= packets_total st ->
  packets_processed (handle_events nfp st events).1
  <= packets_total (handle_events nfp st events).1.
Proof.
  revert st. induction events as [|recv events IH]; intros st Hinv.
  - exact Hinv.
  - cbn [handle_events].
    pose proof (handle_event_invariant nfp st recv Hinv) as Hstep.
    destruct (handle_event nfp st recv) as [st1 [e|]]; cbn [fst] in *.
    + exact Hstep.
    + apply IH, Hstep.
Qed.

Lemma loop_iteration_invariant (nfp : string -> option method) (st : gcfg_state)
    (sel : res (list (res bytes))) :
  packets_processed st <= packets_total st ->
  packets_processed (loop_iteration nfp st sel)
  <= packets_total (loop_iteration nfp st sel).
Proof.
  intros Hinv. unfold loop_iteration. destruct sel as [events|e].
  - pose proof (handle_events_invariant nfp events st Hinv) as Hstep.
    destruct (handle_events nfp st events) as [st1 [e|]]; exact Hstep.
  - exact Hinv.
Qed.

(** C5. Whatever object the loop uses as its parser and whatever happens
    in each iteration ([select] raising, [recvfrom] returning a datagram,
    blocking or raising, the decoder returning a packet, returning [None]
    or raising, a [put] raising), a run of the loop that starts with
    packets_processed <= packets_total ends with
    packets_processed <= packets_total. Moreover each event for which
    [recvfrom] returns a datagram adds exactly one to packets_total and
    adds one to packets_processed exactly when the decoder returned a
    packet; an event whose [recvfrom] raises changes neither counter. *)
Theorem processed_le_total (nfp : string -> option method) (st : gcfg_state)
    (iterations : list (res (list (res bytes)))) :
  packets_processed st <= packets_total st ->
  packets_processed (main_loop nfp st iterations)
  <= packets_total (main_loop nfp st iterations)
  /\ forall (s : gcfg_state) (recv : res bytes),
       let s' := (handle_event nfp s recv).1 in
       match recv with
       | Return recv_data =>
           packets_total s' = packets_total s + 1
           /\ packets_processed s'
              = packets_processed s + (if decoded nfp recv_data then 1 else 0)
       | Raise _ =>
           packets_total s' = packets_total s
           /\ packets_processed s' = packets_processed s
       end.
Proof.
  intros Hinv. split; [|intros s recv; apply handle_event_counters].
  unfold main_loop. revert st Hinv.
  induction iterations as [|sel iterations IH]; intros st Hinv.
  - exact Hinv.
  - cbn [foldl]. apply IH, loop_iteration_invariant, Hinv.
Qed.

Lemma processed_le_total_witness :
  let st := main_loop NetflowParser (initial_gcfg ∅)
              [Return [Return sample_datagram]; Raise (OtherError "select");
               Return [Raise BlockingIOError; Return one_byte_datagram]] in
  packets_processed st <= packets_total st
  /\ forall (s : gcfg_state) (recv : res bytes),
       let s' := (handle_event NetflowParser s recv).1 in
       match recv with
       | Return recv_data =>
           packets_total s' = packets_total s + 1
           /\ packets_processed s'
              = packets_processed s
                + (if decoded NetflowParser recv_data then 1 else 0)
       | Raise _ =>
           packets_total s' = packets_total s
           /\ packets_processed s' = packets_processed s
       end.
Proof.
  apply (processed_le_total NetflowParser (initial_gcfg ∅)). cbn. lia.
Defined.

(** The class as it stands has no [parse_packet] method: for every
    datagram received the call at the top of the [else] branch raises
    [AttributeError], after packets_total was counted and before anything
    else happens. *)
Lemma handle_event_NetflowParser (st : gcfg_state) (recv_data : bytes) :
  handle_event NetflowParser st (Return recv_data)
  = (Gcfg (packets_total st + 1) (packets_processed st) (module_objects st)
          (main_log st),
     Some (AttributeError "parse_packet")).
Proof.
  unfold handle_event, call_method, NetflowParser.
  rewrite decide_False by discriminate.
  unfold add_log. cbn [packets_total packets_processed module_objects main_log].
  rewrite app_nil_r. reflexivity.
Qed.

(** C8. For every datagram that holds a whole header whose version field
    is not 5, [parse_netflow_packet] logs the version and returns [None],
    whatever follows the header (no record is read: a record area of any
    length and content, even a truncated one, gives the same result); and
    the loop, whether its decoder call resolves to [parse_netflow_packet]
    or to nothing, puts nothing on any module's queue for that datagram
    and does not count it as processed. *)
Theorem wrong_version_rejected (data : bytes) :
  (header_len <= length data)%nat ->
  field_at data 0 2 ≠ 5 ->
  parse_netflow_packet data = ([WrongVersion (field_at data 0 2)], Return None)
  /\ forall (nfp : string -> option method) (st : gcfg_state),
       nfp "parse_packet" = None \/ nfp "parse_packet" = Some parse_netflow_packet ->
       let st' := (handle_event nfp st (Return data)).1 in
       module_objects st' = module_objects st
       /\ packets_processed st' = packets_processed st.
Proof.
  intros Hlen Hver.
  assert (Hparse : parse_netflow_packet data
                   = ([WrongVersion (field_at data 0 2)], Return None)).
  { rewrite parse_with_header by exact Hlen. cbn zeta.
    rewrite decide_True by exact Hver. reflexivity. }
  split; [exact Hparse|].
  intros nfp st Hnfp. cbn zeta. unfold handle_event, call_method.
  destruct Hnfp as [-> | ->].
  - split; reflexivity.
  - rewrite Hparse. split; reflexivity.
Qed.

Lemma wrong_version_rejected_witness :
  parse_netflow_packet version9_datagram = ([WrongVersion 9], Return None)
  /\ forall (nfp : string -> option method) (st : gcfg_state),
       nfp "parse_packet" = None \/ nfp "parse_packet" = Some parse_netflow_packet ->
       let st' := (handle_event nfp st (Return version9_datagram)).1 in
       module_objects st' = module_objects st
       /\ packets_processed st' = packets_processed st.
Proof.
  apply (wrong_version_rejected version9_datagram).
  - vm_compute. lia.
  - vm_compute. discriminate.
Defined.

(* ===================================================================== *)
(** ** Properties of the detector *)
(* ===================================================================== *)

Section DetectorProperties.

Variable analysis_interval : Q.
Variable ips_threshold : Z.
Variable max_avg_packet_size : Q.
Variable min_packets_per_source : Z.

Lemma dd_getitem_present {K} `{Countable K} {V} (dflt v : V) (k : K) (d : gmap K V) :
  d !! k = Some v -> dd_getitem dflt k d = (v, d).
Proof. intros Hk. unfold dd_getitem. rewrite Hk. reflexivity. Qed.

Lemma read_count_present (st : gmap Z entry) (dst src count : Z) (srcs : gmap Z Z) :
  st !! dst = Some (EDict srcs) ->
  srcs !! src = Some count ->
  read_count st dst src = (Return count, st).
Proof.
  intros Hdst Hsrc. unfold read_count.
  rewrite (dd_getitem_present _ _ _ _ Hdst), (dd_getitem_present _ _ _ _ Hsrc).
  rewrite insert_id by exact Hdst. reflexivity.
Qed.

(** The inner loop over keys of the dictionary it reads: it stores
    nothing, and it ends with [this_is_it] true exactly when no key is
    below the minimum. *)
Lemma all_sources_reach_keys (st : gmap Z entry) (dst : Z) (srcs : gmap Z Z)
    (ks : list Z) :
  st !! dst = Some (EDict srcs) ->
  (forall src, src ∈ ks -> is_Some (srcs !! src)) ->
  exists b : bool,
    all_sources_reach min_packets_per_source st dst ks = (Return b, st)
    /\ (b = true <->
        forall src count, src ∈ ks -> srcs !! src = Some count ->
                          min_packets_per_source <= count).
Proof.
  intros Hdst. induction ks as [|src ks IH]; intros Hks.
  - exists true. split; [reflexivity|]. split; [|reflexivity].
    intros _ src count Hin. exfalso. exact (not_elem_of_nil _ Hin).
  - destruct (Hks src (list_elem_of_here _ _)) as [count Hcount].
    cbn [all_sources_reach]. rewrite (read_count_present _ _ _ _ _ Hdst Hcount).
    destruct (decide (count < min_packets_per_source)) as [Hlow|Hok].
    + exists false. split; [reflexivity|]. split; [discriminate|].
      intros Hall. specialize (Hall src count (list_elem_of_here _ _) Hcount). lia.
    + destruct IH as (b & Hb & Hiff).
      { intros s Hs. apply Hks, list_elem_of_further, Hs. }
      exists b. split; [exact Hb|]. rewrite Hiff. split.
      * intros Hall s c [->|Hin]%elem_of_cons Hs.
        -- rewrite Hcount in Hs. injection Hs as <-. lia.
        -- exact (Hall s c Hin Hs).
      * intros Hall s c Hin Hs. exact (Hall s c (list_elem_of_further _ _ _ Hin) Hs).
Qed.

(** One round of the outer loop, for a key that is present. *)
Lemma check_target_present (st : gmap Z entry) (dst : Z) (e : entry) :
  st !! dst = Some e ->
  match e with
  | EInt _ =>
      check_target ips_threshold min_packets_per_source st dst
      = (Raise TypeError, st)
  | EDict srcs =>
      exists b : bool,
        check_target ips_threshold min_packets_per_source st dst = (Return b, st)
        /\ (b = true <->
            Z.of_nat (size srcs) > ips_threshold /\ sources_reach min_packets_per_source srcs)
  end.
Proof.
  intros Hdst. unfold check_target.
  rewrite (dd_getitem_present _ _ _ _ Hdst).
  destruct e as [n|srcs]; [reflexivity|].
  destruct (decide (Z.of_nat (size srcs) > ips_threshold)) as [Hmany|Hfew].
  - rewrite (dd_getitem_present _ _ _ _ Hdst).
    destruct (all_sources_reach_keys st dst srcs (dict_keys srcs) Hdst)
      as (b & Hb & Hiff).
    { intros src Hin. apply elem_of_dict_keys, Hin. }
    exists b. split; [exact Hb|]. rewrite Hiff. split.
    + intros Hall. split; [exact Hmany|]. intros src count Hs.
      apply (Hall src count); [|exact Hs].
      apply elem_of_dict_keys. exists count. exact Hs.
    + intros [_ Hall] src count _ Hs. exact (Hall src count Hs).
  - exists false. split; [reflexivity|]. split; [discriminate|].
    intros [Hmany _]. exfalso. exact (Hfew Hmany).
Qed.

Lemma collect_targets_frame (st : gmap Z entry) (dsts : list Z) :
  (forall dst, dst ∈ dsts -> is_Some (st !! dst)) ->
  (collect_targets ips_threshold min_packets_per_source st dsts).2 = st.
Proof.
  induction dsts as [|dst dsts IH]; intros Hks; [reflexivity|].
  cbn [collect_targets].
  destruct (Hks dst (list_elem_of_here _ _)) as [e He].
  pose proof (check_target_present st dst e He) as Hcheck.
  assert (Htail : forall d, d ∈ dsts -> is_Some (st !! d))
    by (intros d Hd; apply Hks, list_elem_of_further, Hd).
  specialize (IH Htail).
  destruct e as [n|srcs].
  - rewrite Hcheck. reflexivity.
  - destruct Hcheck as (b & -> & _).
    destruct (collect_targets ips_threshold min_packets_per_source st dsts)
      as [[targets|e] st2]; cbn [snd] in *; exact IH.
Qed.

(** C10. In every detector state, [detect_ddos_targets] leaves
    [ips_state] as it found it: although each subscript of a
    [defaultdict] stores a default under a missing key, the call only
    subscripts keys it has taken from [keys()], so it adds no
    destination, adds no source and changes no count (also when it ends
    by raising). *)
Theorem detect_ddos_targets_read_only (st : gmap Z entry) :
  (detect_ddos_targets ips_threshold min_packets_per_source st).2 = st.
Proof.
  unfold detect_ddos_targets. apply collect_targets_frame.
  intros dst Hin. apply elem_of_dict_keys, Hin.
Qed.


(** What the outer loop returns on a state made of dictionaries. *)
Lemma collect_targets_exact (st : gmap Z entry) (dsts : list Z) :
  all_dicts st ->
  (forall dst, dst ∈ dsts -> is_Some (st !! dst)) ->
  exists targets : list Z,
    collect_targets ips_threshold min_packets_per_source st dsts
    = (Return targets, st)
    /\ sublist targets dsts
    /\ forall dst,
         dst ∈ targets <->
         dst ∈ dsts
         /\ exists srcs, st !! dst = Some (EDict srcs)
              /\ Z.of_nat (size srcs) > ips_threshold
              /\ sources_reach min_packets_per_source srcs.
Proof.
  intros Hwf. induction dsts as [|dst dsts IH]; intros Hks.
  - exists []. split; [reflexivity|]. split; [constructor|].
    intros d. split.
    + intros Hin. exfalso. exact (not_elem_of_nil _ Hin).
    + intros [Hin _]. exact Hin.
  - destruct (Hks dst (list_elem_of_here _ _)) as [e He].
    destruct (Hwf dst e He) as [srcs ->].
    destruct (check_target_present st dst _ He) as (b & Hb & Hiff).
    destruct IH as (targets & Htargets & Hsub & Hmem).
    { intros d Hd. apply Hks, list_elem_of_further, Hd. }
    cbn [collect_targets]. rewrite Hb, Htargets.
    exists (if b then dst :: targets else targets).
    split; [reflexivity|]. split.
    { destruct b; [apply sublist_skip | apply sublist_cons]; exact Hsub. }
    intros d. destruct b.
    + rewrite elem_of_cons, Hmem, elem_of_cons. split.
      * intros [->|[Hin Hhit]].
        -- split; [left; reflexivity|]. exists srcs.
           destruct Hiff as [Hiff _]. destruct (Hiff eq_refl) as [Hmany Hall].
           repeat split; assumption.
        -- split; [right; exact Hin|exact Hhit].
      * intros [[->|Hin] Hhit]; [left; reflexivity|right; split; assumption].
    + rewrite Hmem, elem_of_cons. split.
      * intros [Hin Hhit]. split; [right; exact Hin|exact Hhit].
      * intros [[->|Hin] Hhit]; [|split; assumption].
        destruct Hhit as (srcs' & Hs & Hmany & Hall).
        rewrite He in Hs. injection Hs as <-.
        destruct Hiff as [_ Hiff]. discriminate (Hiff (conj Hmany Hall)).
Qed.

(** C6. On a state built by [update_state] (every key holds a
    per-source dictionary), [detect_ddos_targets] returns, without
    raising, a list in which no address occurs twice and whose members
    are exactly the destinations whose number of distinct sources is
    strictly above ips_threshold and all of whose sources have accrued at
    least min_packets_per_source packets. A destination with a source
    below min_packets_per_source is therefore not returned. *)
Theorem detect_ddos_targets_exact (st : gmap Z entry) :
  all_dicts st ->
  exists targets : list Z,
    (detect_ddos_targets ips_threshold min_packets_per_source st).1
    = Return targets
    /\ NoDup targets
    /\ (forall dst,
          dst ∈ targets <->
          exists srcs, st !! dst = Some (EDict srcs)
            /\ Z.of_nat (size srcs) > ips_threshold
            /\ forall src count, srcs !! src = Some count ->
                                 min_packets_per_source <= count)
    /\ (forall dst srcs src count,
          st !! dst = Some (EDict srcs) -> srcs !! src = Some count ->
          count < min_packets_per_source -> dst ∉ targets).
Proof.
  intros Hwf. unfold detect_ddos_targets.
  destruct (collect_targets_exact st (dict_keys st) Hwf)
    as (targets & Heq & Hsub & Hmem).
  { intros dst Hin. apply elem_of_dict_keys, Hin. }
  exists targets. rewrite Heq.
  assert (Hexact : forall dst,
             dst ∈ targets <->
             exists srcs, st !! dst = Some (EDict srcs)
               /\ Z.of_nat (size srcs) > ips_threshold
               /\ forall src count, srcs !! src = Some count ->
                                    min_packets_per_source <= count).
  { intros dst. rewrite Hmem. split.
    - intros [_ Hhit]. exact Hhit.
    - intros (srcs & Hs & Hrest). split.
      + apply elem_of_dict_keys. exists (EDict srcs). exact Hs.
      + exists srcs. split; assumption. }
  split; [reflexivity|]. split; [|split; [exact Hexact|]].
  - apply (sublist_NoDup targets (dict_keys st)); [|exact Hsub].
    unfold dict_keys. apply NoDup_fst_map_to_list.
  - intros dst srcs src count Hs Hc Hlow Hin.
    apply Hexact in Hin as (srcs' & Hs' & _ & Hall).
    rewrite Hs in Hs'. injection Hs' as <-.
    specialize (Hall src count Hc). lia.
Qed.

Lemma all_dicts_empty : all_dicts ∅.
Proof. intros dst e H. rewrite lookup_empty in H. discriminate. Qed.

Lemma all_dicts_insert (st : gmap Z entry) (dst : Z) (srcs : gmap Z Z) :
  all_dicts st -> all_dicts (<[dst := EDict srcs]> st).
Proof.
  intros Hwf d e. rewrite lookup_insert.
  destruct (decide (dst = d)); [|apply Hwf].
  intros [= <-]. exists srcs. reflexivity.
Qed.

(** A flow with no packets: the division raises and nothing is stored. *)
Lemma update_flow_zero_packets (st : gmap Z entry) (f : flow) :
  npackets f = 0 ->
  update_flow max_avg_packet_size st f = (st, Some ZeroDivisionError).
Proof. intros Hz. unfold update_flow. rewrite decide_True by exact Hz. reflexivity. Qed.

(** A flow whose average packet size is not below the maximum: skipped. *)
Lemma update_flow_large (st : gmap Z entry) (f : flow) :
  npackets f ≠ 0 ->
  ~ Qlt (Qdiv (inject_Z (nbytes f)) (inject_Z (npackets f))) max_avg_packet_size ->
  update_flow max_avg_packet_size st f = (st, None).
Proof.
  intros Hnz Hlarge. unfold update_flow. rewrite decide_False by exact Hnz.
  destruct (Qlt_le_dec _ _) as [Hlt|_]; [contradiction|reflexivity].
Qed.

(** A flow whose average packet size is below the maximum: its packets
    are added to the count of its destination and source. *)
Lemma update_flow_small (st : gmap Z entry) (f : flow) :
  all_dicts st ->
  npackets f ≠ 0 ->
  Qlt (Qdiv (inject_Z (nbytes f)) (inject_Z (npackets f))) max_avg_packet_size ->
  exists srcs : gmap Z Z,
    (st !! dst_addr f = Some (EDict srcs)
     \/ st !! dst_addr f = None /\ srcs = ∅)
    /\ update_flow max_avg_packet_size st f
       = (<[dst_addr f :=
              EDict (<[src_addr f := count_of st (dst_addr f) (src_addr f)
                                     + npackets f]> srcs)]> st,
          None).
Proof.
  intros Hwf Hnz Hsmall. unfold update_flow, count_of.
  rewrite decide_False by exact Hnz.
  destruct (Qlt_le_dec _ _) as [_|Hle]; [|exfalso; exact (Qle_not_lt _ _ Hle Hsmall)].
  destruct (st !! dst_addr f) as [e|] eqn:Hdst.
  - destruct (Hwf _ _ Hdst) as [srcs ->]. exists srcs.
    split; [left; reflexivity|].
    rewrite (dd_getitem_present _ _ _ _ Hdst).
    unfold dd_getitem. destruct (srcs !! src_addr f) as [count|]; cbn [default].
    + reflexivity.
    + rewrite insert_insert_eq. reflexivity.
  - exists ∅. split; [right; split; reflexivity|].
    rewrite (dd_getitem_present (EInt 0) (EDict ∅))
      by apply lookup_insert_eq.
    unfold dd_getitem. rewrite lookup_empty. cbn [default].
    rewrite !insert_insert_eq. reflexivity.
Qed.

Lemma update_flow_ok (st : gmap Z entry) (f : flow) :
  all_dicts st ->
  npackets f ≠ 0 ->
  exists st', update_flow max_avg_packet_size st f = (st', None) /\ all_dicts st'.
Proof.
  intros Hwf Hnz.
  destruct (Qlt_le_dec (Qdiv (inject_Z (nbytes f)) (inject_Z (npackets f)))
                       max_avg_packet_size) as [Hsmall|Hlarge].
  - destruct (update_flow_small st f Hwf Hnz Hsmall) as (srcs & _ & ->).
    eexists. split; [reflexivity|]. apply all_dicts_insert, Hwf.
  - exists st. split; [|exact Hwf].
    apply update_flow_large; [exact Hnz|]. apply Qle_not_lt, Hlarge.
Qed.

Lemma update_state_ok (st : gmap Z entry) (pack : packet) :
  all_dicts st ->
  Forall (fun f => npackets f ≠ 0) (pk_flows pack) ->
  exists st', update_state max_avg_packet_size st pack = (st', None)
              /\ all_dicts st'.
Proof.
  unfold update_state. generalize (pk_flows pack) as flows.
  intros flows Hwf Hnz. revert st Hwf.
  induction Hnz as [|f flows Hf _ IH]; intros st Hwf.
  - exists st. split; [reflexivity|exact Hwf].
  - destruct (update_flow_ok st f Hwf Hf) as (st1 & Hstep & Hwf1).
    cbn [update_flows]. rewrite Hstep. apply IH, Hwf1.
Qed.


(** What the iteration at a window boundary does. *)
Lemma run_iteration_at_boundary (d : detector) (t : tick) :
  all_dicts (ips_state d) ->
  quiet_tick t ->
  window_over analysis_interval d t ->
  exists reported : list log_msg,
    run_iteration analysis_interval ips_threshold max_avg_packet_size
                  min_packets_per_source d t
    = (Detector ∅ (now_restart t) (det_log d ++ reported), None).
Proof.
  intros Hwf Hquiet Hover. unfold run_iteration.
  assert (Hget : exists st1,
             match got t with
             | Return pack => update_state max_avg_packet_size (ips_state d) pack
             | Raise QueueEmpty => (ips_state d, None)
             | Raise e => (ips_state d, Some e)
             end = (st1, None) /\ all_dicts st1).
  { unfold quiet_tick in Hquiet. destruct (got t) as [pack|e].
    - apply update_state_ok; assumption.
    - destruct e; try contradiction.
      exists (ips_state d). split; [reflexivity|exact Hwf]. }
  destruct Hget as (st1 & -> & Hwf1).
  destruct (Qlt_le_dec _ _) as [_|Hle];
    [|exfalso; exact (Qle_not_lt _ _ Hle Hover)].
  unfold detect_ddos_targets.
  destruct (collect_targets_exact st1 (dict_keys st1) Hwf1)
    as (targets & -> & _).
  { intros dst Hin. apply elem_of_dict_keys, Hin. }
  eexists. reflexivity.
Qed.


(** [update_state] keeps every key a dictionary, so every state that
    [run] evaluates is one on which [detect_ddos_targets] does not
    raise. *)
Lemma run_iteration_all_dicts (d : detector) (t : tick) :
  all_dicts (ips_state d) ->
  quiet_tick t ->
  exists d', run_iteration analysis_interval ips_threshold max_avg_packet_size
               min_packets_per_source d t = (d', None)
             /\ all_dicts (ips_state d').
Proof.
  intros Hwf Hquiet.
  destruct (Qlt_le_dec analysis_interval (Qminus (now_test t) (start_ts d)))
    as [Hover|Hwithin].
  - destruct (run_iteration_at_boundary d t Hwf Hquiet Hover) as (reported & ->).
    eexists. split; [reflexivity|]. apply all_dicts_empty.
  - unfold run_iteration, quiet_tick in *.
    destruct (got t) as [pack|e].
    + destruct (update_state_ok (ips_state d) pack Hwf Hquiet) as (st1 & -> & Hwf1).
      destruct (Qlt_le_dec _ _) as [Hover|_];
        [exfalso; exact (Qle_not_lt _ _ Hwithin Hover)|].
      eexists. split; [reflexivity|exact Hwf1].
    + destruct e; try contradiction.
      destruct (Qlt_le_dec _ _) as [Hover|_];
        [exfalso; exact (Qle_not_lt _ _ Hwithin Hover)|].
      eexists. split; [reflexivity|exact Hwf].
Qed.

End DetectorProperties.

(* ===================================================================== *)
(** ** The detector on concrete inputs *)
(* ===================================================================== *)

Lemma all_dicts_sample_ips_state : all_dicts sample_ips_state.
Proof.
  unfold sample_ips_state. do 2 apply all_dicts_insert. apply all_dicts_empty.
Qed.

Example detect_sample_ips_state :
  detect_ddos_targets 1 10 sample_ips_state
  = (Return [ip 10 0 0 2], sample_ips_state).
Proof. vm_compute. reflexivity. Qed.

Lemma detect_ddos_targets_exact_witness :
  exists targets : list Z,
    (detect_ddos_targets 1 10 sample_ips_state).1 = Return targets
    /\ NoDup targets
    /\ (forall dst,
          dst ∈ targets <->
          exists srcs, sample_ips_state !! dst = Some (EDict srcs)
            /\ Z.of_nat (size srcs) > 1
            /\ forall src count, srcs !! src = Some count -> 10 <= count)
    /\ (forall dst srcs src count,
          sample_ips_state !! dst = Some (EDict srcs) -> srcs !! src = Some count ->
          count < 10 -> dst ∉ targets).
Proof.
  apply (detect_ddos_targets_exact 1 10 sample_ips_state).
  exact all_dicts_sample_ips_state.
Defined.


Example parse_zero_packets_datagram :
  parse_netflow_packet zero_packets_datagram
  = ([], Return (Some zero_packets_packet)).
Proof. vm_compute. reflexivity. Qed.

(** C4 (code at the failing input). On a decoded packet holding a flow
    record with npackets = 0, [update_state] does not skip the record: the
    division raises [ZeroDivisionError], in whatever state and with
    whatever maximum; and [run] then leaves its loop, logging the
    exception, so the packets that follow are never looked at. *)
Theorem update_state_zero_packets_raises :
  (forall (max_avg_packet_size : Q) (st : gmap Z entry),
      update_state max_avg_packet_size st zero_packets_packet
      = (st, Some ZeroDivisionError))
  /\ run (60 # 1) 1 (1000 # 1) 10 0
       [Tick (Return zero_packets_packet) (1 # 1) (1 # 1);
        Tick (Return sample_packet) (2 # 1) (2 # 1)]
     = Detector ∅ 0 [ExitedWithException ZeroDivisionError].
Proof.
  split; [intros max_avg_packet_size st; reflexivity|].
  vm_compute. reflexivity.
Qed.

(** A window that triggers a report followed by a window that stays below
    the threshold: one report, from the first window only. *)
Example two_windows_one_report :
  run (60 # 1) 1 (1000 # 1) 10 0
    [Tick (Return sample_packet) (10 # 1) (10 # 1);
     Tick (Raise QueueEmpty) (61 # 1) (61 # 1);
     Tick (Return single_source_packet) (70 # 1) (70 # 1);
     Tick (Raise QueueEmpty) (122 # 1) (122 # 1)]
  = Detector ∅ (122 # 1) [DetectedTarget (ip 10 0 0 2)].
Proof. vm_compute. reflexivity. Qed.

(* ===================================================================== *)
(** ** The decoder on arbitrary input *)
(* ===================================================================== *)

Lemma byte_val_range (b : byte) : 0 <= byte_val b < 256.
Proof.
  unfold byte_val. pose proof (Byte.to_N_bounded b) as Hb. lia.
Qed.

Lemma be_uint_acc_range (bs : bytes) (acc bound : Z) :
  0 <= acc < bound ->
  0 <= fold_left (fun a b => a * 256 + byte_val b) bs acc
    < bound * 256 ^ Z.of_nat (length bs).
Proof.
  revert acc bound. induction bs as [|b bs IH]; intros acc bound Hacc.
  - cbn. lia.
  - cbn [fold_left length]. pose proof (byte_val_range b) as Hb.
    rewrite Nat2Z.inj_succ, Z.pow_succ_r by lia.
    replace (bound * (256 * 256 ^ Z.of_nat (length bs)))
      with ((bound * 256) * 256 ^ Z.of_nat (length bs)) by ring.
    apply IH. nia.
Qed.

Lemma be_uint_range (bs : bytes) : 0 <= be_uint bs < 256 ^ Z.of_nat (length bs).
Proof.
  unfold be_uint. pose proof (be_uint_acc_range bs 0 1) as H.
  rewrite Z.mul_1_l in H. apply H. lia.
Qed.

Lemma field_at_range (data : bytes) (offset width : nat) :
  0 <= field_at data offset width < 256 ^ Z.of_nat width.
Proof.
  unfold field_at.
  pose proof (be_uint_range (take width (drop offset data))) as [Hlo Hhi].
  split; [exact Hlo|].
  eapply Z.lt_le_trans; [exact Hhi|].
  apply Z.pow_le_mono_r; [lia|]. rewrite length_take. lia.
Qed.

(** The declared flow count, as the loop bound [range(nflows)] sees it. *)
Lemma declared_count (data : bytes) :
  field_at data 2 2 = Z.of_nat (Z.to_nat (field_at data 2 2)).
Proof. pose proof (field_at_range data 2 2). lia. Qed.

(** Every input falls in one of six cases, each with its outcome. *)
Lemma parse_cases (data : bytes) :
  let n := Z.to_nat (field_at data 2 2) in
  let pk := Packet (Header 5 (Z.of_nat n)) (wire_flow data <$> seq 0 n) in
  (data = [] /\ parse_netflow_packet data = ([], Return None))
  \/ ((0 < length data < header_len)%nat
      /\ parse_netflow_packet data = ([], Raise StructError))
  \/ ((header_len <= length data)%nat /\ field_at data 0 2 ≠ 5
      /\ parse_netflow_packet data
         = ([WrongVersion (field_at data 0 2)], Return None))
  \/ (field_at data 0 2 = 5 /\ length data = (header_len + n * flow_len)%nat
      /\ parse_netflow_packet data = ([], Return (Some pk)))
  \/ (field_at data 0 2 = 5 /\ (header_len + n * flow_len < length data)%nat
      /\ parse_netflow_packet data = ([MalformedPacket], Return (Some pk)))
  \/ (field_at data 0 2 = 5
      /\ (header_len <= length data < header_len + n * flow_len)%nat
      /\ parse_netflow_packet data = ([MalformedPacket], Raise StructError)).
Proof.
  cbn zeta. set (n := Z.to_nat (field_at data 2 2)).
  pose proof (declared_count data) as Hn. fold n in Hn.
  destruct (decide (length data = 0%nat)) as [Hnil|Hpos].
  { apply nil_length_inv in Hnil. left. split; [exact Hnil|].
    rewrite Hnil. reflexivity. }
  right.
  destruct (decide (length data < header_len)%nat) as [Hshort|Hhdr].
  { left. split; [lia|]. apply parse_short_header. lia. }
  right. assert (Hlen : (header_len <= length data)%nat) by lia.
  destruct (decide (field_at data 0 2 = 5)) as [Hver|Hver].
  2:{ left. split; [exact Hlen|]. split; [exact Hver|].
      rewrite parse_with_header by exact Hlen. cbn zeta.
      rewrite decide_True by exact Hver. reflexivity. }
  right.
  destruct (lt_eq_lt_dec (length data) (header_len + n * flow_len)) as [[Hlt|Heq]|Hgt].
  - right. right. split; [exact Hver|]. split; [lia|].
    apply (parse_truncated data n); [lia|exact Hver|exact Hn].
  - left. split; [exact Hver|]. split; [exact Heq|].
    rewrite parse_with_header by exact Hlen. cbn zeta. rewrite Hver, Hn.
    rewrite decide_False by (intros H; apply H; reflexivity).
    rewrite decide_False
      by (intros H; apply H; rewrite Heq, flow_len_48, header_len_24; lia).
    rewrite Nat2Z.id, parse_flows_inside by (rewrite Heq; simpl; lia).
    reflexivity.
  - right. left. split; [exact Hver|]. split; [exact Hgt|].
    apply (parse_overlong data n); [exact Hgt|exact Hver|exact Hn].
Qed.

Ltac parse_cases_of data :=
  let Ha := fresh "Hcase" in let Hb := fresh "Hlen" in let Hc := fresh "Hparse" in
  destruct (parse_cases data)
    as [[Ha Hc]|[[Hb Hc]|[(Hb & Ha & Hc)|[(Ha & Hb & Hc)|[(Ha & Hb & Hc)|(Ha & Hb & Hc)]]]]];
  cbn zeta in Hc.



(** X2. Whenever [parse_netflow_packet] returns a packet, the datagram has
    version 5, the packet's header carries the declared flow count, all
    declared records lie inside the datagram, the flows are exactly the
    declared records read at their offsets, and nothing is logged exactly
    when the length is the declared one (otherwise the one message is
    'Malformed packet received'). *)
Theorem parse_returned_packet (data : bytes) (msgs : list log_msg) (pk : packet) :
  parse_netflow_packet data = (msgs, Return (Some pk)) ->
  let n := Z.to_nat (field_at data 2 2) in
  field_at data 0 2 = 5
  /\ pk_header pk = Header 5 (field_at data 2 2)
  /\ pk_flows pk = wire_flow data <$> seq 0 n
  /\ (header_len + n * flow_len <= length data)%nat
  /\ (msgs = [] <-> length data = (header_len + n * flow_len)%nat)
  /\ (msgs = [] \/ msgs = [MalformedPacket]).
Proof.
  intros Hret. cbn zeta. pose proof (declared_count data) as Hn.
  parse_cases_of data; rewrite Hparse in Hret; try discriminate Hret;
    injection Hret as <- <-; cbn [pk_header pk_flows]; rewrite <- Hn.
  - split; [exact Hcase|]. split; [reflexivity|]. split; [reflexivity|].
    split; [lia|]. split; [|left; reflexivity].
    split; [intros _; exact Hlen|reflexivity].
  - split; [exact Hcase|]. split; [reflexivity|]. split; [reflexivity|].
    split; [lia|]. split; [|right; reflexivity].
    split; [intros H; discriminate H|intros H; lia].
Qed.

Lemma parse_returned_packet_witness :
  let n := Z.to_nat (field_at overlong_datagram 2 2) in
  let pk := Packet (Header 5 2)
              [Flow (ip 10 0 0 1) (ip 10 0 0 2) 1234 80 100 6000 0 6;
               Flow (ip 10 0 0 3) (ip 10 0 0 2) 5555 80 50 3000 0 6] in
  field_at overlong_datagram 0 2 = 5
  /\ pk_header pk = Header 5 (field_at overlong_datagram 2 2)
  /\ pk_flows pk = wire_flow overlong_datagram <$> seq 0 n
  /\ (header_len + n * flow_len <= length overlong_datagram)%nat
  /\ ([MalformedPacket] = [] <-> length overlong_datagram = (header_len + n * flow_len)%nat)
  /\ ([MalformedPacket] = [] \/ [MalformedPacket] = [MalformedPacket]).
Proof.
  apply (parse_returned_packet overlong_datagram [MalformedPacket]).
  vm_compute. reflexivity.
Defined.

(** X3. [parse_netflow_packet] returns [None] in exactly two situations:
    the datagram is empty, or it holds a whole header whose version is
    not 5. *)
Theorem parse_returns_none_iff (data : bytes) :
  (parse_netflow_packet data).2 = Return None
  <-> data = [] \/ ((header_len <= length data)%nat /\ field_at data 0 2 ≠ 5).
Proof.
  parse_cases_of data; rewrite Hparse; cbn [snd]; split;
    try (intros H; discriminate H).
  - intros _. left. exact Hcase.
  - reflexivity.
  - intros [->|[Hge _]]; [cbn in Hlen; lia|lia].
  - intros _. right. split; assumption.
  - reflexivity.
  - intros [->|[_ Hne]]; [rewrite header_len_24 in Hlen; cbn in Hlen; lia|contradiction].
  - intros [->|[_ Hne]]; [rewrite header_len_24 in Hlen; cbn in Hlen; lia|contradiction].
  - intros [->|[_ Hne]]; [rewrite header_len_24 in Hlen; cbn in Hlen; lia|contradiction].
Qed.

(** X4. [parse_netflow_packet] raises in exactly two situations: the
    datagram is not empty but shorter than the 24-byte header, or it has
    version 5 and is shorter than the header plus the declared records. *)
Theorem parse_raises_iff (data : bytes) :
  (exists e, (parse_netflow_packet data).2 = Raise e)
  <-> (0 < length data < header_len)%nat
      \/ (field_at data 0 2 = 5
          /\ (header_len <= length data
              < header_len + Z.to_nat (field_at data 2 2) * flow_len)%nat).
Proof.
  parse_cases_of data; rewrite Hparse; cbn [snd]; split;
    try (intros [e H]; discriminate H).
  - intros [Hl|[_ Hl]]; rewrite Hcase in Hl; cbn in Hl; lia.
  - intros _. left. exact Hlen.
  - intros _. exists StructError. reflexivity.
  - intros [Hl|[Hv _]]; [lia|contradiction].
  - intros [Hl|[_ Hl]]; lia.
  - intros [Hl|[_ Hl]]; lia.
  - intros _. right. split; assumption.
  - intros _. exists StructError. reflexivity.
Qed.

Lemma field_at_app (data extra : bytes) (offset width : nat) :
  (offset + width <= length data)%nat ->
  field_at (data ++ extra) offset width = field_at data offset width.
Proof.
  intros Hin. unfold field_at.
  rewrite drop_app_le by lia.
  rewrite take_app_le by (rewrite length_drop; lia). reflexivity.
Qed.

Lemma wire_flow_app (data extra : bytes) (i : nat) :
  (24 + 48 * i + 48 <= length data)%nat ->
  wire_flow (data ++ extra) i = wire_flow data i.
Proof.
  intros Hin. unfold wire_flow. cbn zeta.
  rewrite !field_at_app by lia. reflexivity.
Qed.

Lemma wire_flows_app (data extra : bytes) (n : nat) :
  (24 + 48 * n <= length data)%nat ->
  wire_flow (data ++ extra) <$> seq 0 n = wire_flow data <$> seq 0 n.
Proof.
  intros Hin. apply list_eq. intros i. rewrite !list_lookup_fmap.
  destruct (seq 0 n !! i) as [k|] eqn:Hk; [|reflexivity].
  apply lookup_seq in Hk as [-> Hi]. cbn. f_equal.
  apply wire_flow_app. lia.
Qed.

Lemma wire_flow_in_range (data : bytes) (i : nat) : flow_in_range (wire_flow data i).
Proof.
  unfold flow_in_range, wire_flow. cbn.
  change (2 ^ 32) with (256 ^ Z.of_nat 4).
  change (2 ^ 16) with (256 ^ Z.of_nat 2).
  change (2 ^ 8) with (256 ^ Z.of_nat 1).
  repeat split; apply field_at_range.
Qed.

(** What is known of a datagram for which a packet is returned. *)
Lemma parse_some_inv (data : bytes) (msgs : list log_msg) (pk : packet) :
  parse_netflow_packet data = (msgs, Return (Some pk)) ->
  let n := Z.to_nat (field_at data 2 2) in
  field_at data 0 2 = 5
  /\ (header_len + n * flow_len <= length data)%nat
  /\ pk = Packet (Header 5 (Z.of_nat n)) (wire_flow data <$> seq 0 n).
Proof.
  intros Hret. cbn zeta.
  parse_cases_of data; rewrite Hparse in Hret; try discriminate Hret;
    injection Hret as <- <-.
  - split; [exact Hcase|]. split; [lia|reflexivity].
  - split; [exact Hcase|]. split; [lia|reflexivity].
Qed.

(** X5. Bytes that follow the declared records are ignored: if a datagram
    is decoded to a packet, the same datagram followed by any further
    bytes is decoded to the same packet (header and flows), the only
    difference being the 'Malformed packet received' message. *)
Theorem parse_ignores_trailing_bytes (data extra : bytes) (msgs : list log_msg)
    (pk : packet) :
  parse_netflow_packet data = (msgs, Return (Some pk)) ->
  extra ≠ [] ->
  parse_netflow_packet (data ++ extra) = ([MalformedPacket], Return (Some pk)).
Proof.
  intros Hret Hextra.
  destruct (parse_some_inv data msgs pk Hret) as (Hver & Hlen & ->).
  set (n := Z.to_nat (field_at data 2 2)) in *.
  rewrite header_len_24, flow_len_48 in Hlen.
  rewrite (parse_overlong (data ++ extra) n).
  - rewrite wire_flows_app by lia. reflexivity.
  - rewrite length_app, header_len_24, flow_len_48.
    destruct extra; [contradiction|]. cbn [length]. lia.
  - rewrite field_at_app by lia. exact Hver.
  - rewrite field_at_app by lia. apply declared_count.
Qed.

Lemma parse_ignores_trailing_bytes_witness :
  parse_netflow_packet (sample_datagram ++ ubytes [1; 2; 3])
  = ([MalformedPacket], Return (Some sample_packet)).
Proof.
  apply (parse_ignores_trailing_bytes sample_datagram (ubytes [1; 2; 3]) []).
  - vm_compute. reflexivity.
  - vm_compute. discriminate.
Defined.

(** X6. Every packet that [parse_netflow_packet] returns holds unsigned
    values within the widths of the wire format: a flow count below 2^16,
    and in every flow 32-bit addresses and packet and byte counts, 16-bit
    ports, 8-bit TCP flags and protocol. In particular no count is
    negative. *)
Theorem parse_fields_in_range (data : bytes) (msgs : list log_msg) (pk : packet) :
  parse_netflow_packet data = (msgs, Return (Some pk)) ->
  0 <= nflows (pk_header pk) < 2 ^ 16
  /\ Forall flow_in_range (pk_flows pk).
Proof.
  intros Hret. destruct (parse_some_inv data msgs pk Hret) as (_ & _ & ->).
  cbn [pk_header pk_flows nflows]. rewrite <- declared_count. split.
  - change (2 ^ 16) with (256 ^ Z.of_nat 2). apply field_at_range.
  - apply Forall_fmap, Forall_forall. intros i _. apply wire_flow_in_range.
Qed.

Lemma parse_fields_in_range_witness :
  0 <= nflows (pk_header sample_packet) < 2 ^ 16
  /\ Forall flow_in_range (pk_flows sample_packet).
Proof.
  apply (parse_fields_in_range sample_datagram []).
  vm_compute. reflexivity.
Defined.

(** X7. The loop reads at most 2048 bytes per datagram
    ([recvfrom(2048)]); a packet decoded from that many bytes or fewer
    holds at most 42 flow records. *)
Theorem parse_at_most_42_flows (data : bytes) (msgs : list log_msg) (pk : packet) :
  (length data <= 2048)%nat ->
  parse_netflow_packet data = (msgs, Return (Some pk)) ->
  (length (pk_flows pk) <= 42)%nat.
Proof.
  intros Hmax Hret. destruct (parse_some_inv data msgs pk Hret) as (_ & Hlen & ->).
  cbn [pk_flows]. rewrite length_fmap, length_seq.
  rewrite header_len_24, flow_len_48 in Hlen. lia.
Qed.

Lemma parse_at_most_42_flows_witness :
  (length (pk_flows sample_packet) <= 42)%nat.
Proof.
  apply (parse_at_most_42_flows sample_datagram []).
  - vm_compute. lia.
  - vm_compute. reflexivity.
Defined.

(* ===================================================================== *)
(** ** The dispatch loop over whole runs *)
(* ===================================================================== *)

Lemma send_to_modules_objects (pack : packet) (st : gcfg_state) :
  module_objects (send_to_modules pack st) = deliver pack <$> module_objects st.
Proof.
  unfold send_to_modules.
  destruct (fan_out_over pack (dict_keys (module_objects st))
              (NoDup_fst_map_to_list _) st) as (Hmods & _).
  apply map_eq. intros name. rewrite Hmods, lookup_fmap.
  destruct (decide (name ∈ dict_keys (module_objects st))) as [Hin|Hout];
    [reflexivity|].
  destruct (module_objects st !! name) as [q|] eqn:Hq; [|reflexivity].
  exfalso. apply Hout, elem_of_dict_keys. exists q. exact Hq.
Qed.

Lemma send_to_modules_log (pack : packet) (st : gcfg_state) :
  exists new, main_log (send_to_modules pack st) = main_log st ++ new.
Proof.
  unfold send_to_modules.
  destruct (fan_out_over pack (dict_keys (module_objects st))
              (NoDup_fst_map_to_list _) st) as (_ & Hlog & _).
  eexists. exact Hlog.
Qed.

Lemma deliver_extend (pack : packet) (q : queue) :
  deliver pack q = extend_queue [pack] q.
Proof. unfold deliver, extend_queue, queue_put. destruct (q_closed q); reflexivity. Qed.

Lemma extend_queue_nil (q : queue) : extend_queue [] q = q.
Proof.
  unfold extend_queue. destruct q as [[] items]; cbn; [reflexivity|].
  rewrite app_nil_r. reflexivity.
Qed.

Lemma extend_queue_app (d1 d2 : list packet) (q : queue) :
  extend_queue d2 (extend_queue d1 q) = extend_queue (d1 ++ d2) q.
Proof.
  unfold extend_queue. destruct (q_closed q) eqn:Hc; cbn.
  - rewrite Hc. reflexivity.
  - rewrite app_assoc. reflexivity.
Qed.

Lemma extend_queues_nil (mods : gmap string queue) :
  extend_queue [] <$> mods = mods.
Proof.
  apply map_eq. intros name. rewrite lookup_fmap.
  destruct (mods !! name) as [q|]; cbn; [|reflexivity].
  rewrite extend_queue_nil. reflexivity.
Qed.

Lemma extend_queues_app (d1 d2 : list packet) (mods : gmap string queue) :
  extend_queue d2 <$> (extend_queue d1 <$> mods) = extend_queue (d1 ++ d2) <$> mods.
Proof.
  rewrite <- map_fmap_compose. apply map_fmap_ext.
  intros name q _. cbn. apply extend_queue_app.
Qed.

Lemma loop_effect_refl (st : gcfg_state) : loop_effect st st.
Proof.
  exists [], [], 0%nat. rewrite extend_queues_nil, app_nil_r. cbn.
  repeat split; lia.
Qed.

Lemma loop_effect_trans (st1 st2 st3 : gcfg_state) :
  loop_effect st1 st2 -> loop_effect st2 st3 -> loop_effect st1 st3.
Proof.
  intros (d1 & n1 & r1 & Hm1 & Hp1 & Hl1 & Ht1) (d2 & n2 & r2 & Hm2 & Hp2 & Hl2 & Ht2).
  exists (d1 ++ d2), (n1 ++ n2), (r1 + r2)%nat.
  rewrite Hm2, Hm1, extend_queues_app, Hl2, Hl1, app_assoc, length_app.
  repeat split; lia.
Qed.

Lemma loop_effect_add_log (msgs : list log_msg) (st : gcfg_state) :
  loop_effect st (add_log msgs st).
Proof.
  exists [], msgs, 0%nat. unfold add_log. cbn. rewrite extend_queues_nil.
  repeat split; lia.
Qed.

Lemma send_to_modules_fields (pack : packet) (st : gcfg_state) :
  exists new,
    send_to_modules pack st
    = Gcfg (packets_total st) (packets_processed st)
           (extend_queue [pack] <$> module_objects st) (main_log st ++ new).
Proof.
  destruct (fan_out_over pack (dict_keys (module_objects st))
              (NoDup_fst_map_to_list _) st) as (_ & Hlog & Htot & Hproc).
  pose proof (send_to_modules_objects pack st) as Hmods.
  unfold send_to_modules in *.
  destruct (foldl (put_to_module pack) st (dict_keys (module_objects st)))
    as [t p m l].
  cbn in Hlog, Htot, Hproc, Hmods. subst t p m l.
  eexists. f_equal. apply map_fmap_ext. intros name q _. apply deliver_extend.
Qed.

Lemma handle_event_effect (nfp : string -> option method) (st : gcfg_state)
    (recv : res bytes) :
  loop_effect st (handle_event nfp st recv).1.
Proof.
  unfold handle_event. destruct recv as [recv_data|e].
  - destruct (call_method nfp "parse_packet" recv_data) as [msgs [[pack|]|e]];
      cbn [fst].
    + match goal with
      | |- context [send_to_modules pack ?s] =>
          destruct (send_to_modules_fields pack s) as [new ->]
      end.
      exists [pack], (msgs ++ new), 1%nat. cbn. rewrite app_assoc.
      repeat split; lia.
    + exists [], msgs, 1%nat. cbn. rewrite extend_queues_nil. repeat split; lia.
    + exists [], msgs, 1%nat. cbn. rewrite extend_queues_nil. repeat split; lia.
  - destruct e; cbn [fst]; apply loop_effect_refl.
Qed.

Lemma handle_events_effect (nfp : string -> option method)
    (events : list (res bytes)) (st : gcfg_state) :
  loop_effect st (handle_events nfp st events).1.
Proof.
  revert st. induction events as [|recv events IH]; intros st.
  - apply loop_effect_refl.
  - cbn [handle_events]. pose proof (handle_event_effect nfp st recv) as Hstep.
    destruct (handle_event nfp st recv) as [st1 [e|]]; cbn [fst] in *.
    + exact Hstep.
    + eapply loop_effect_trans; [exact Hstep|apply IH].
Qed.

Lemma loop_iteration_effect (nfp : string -> option method) (st : gcfg_state)
    (sel : res (list (res bytes))) :
  loop_effect st (loop_iteration nfp st sel).
Proof.
  unfold loop_iteration. destruct sel as [events|e].
  - pose proof (handle_events_effect nfp events st) as Hstep.
    destruct (handle_events nfp st events) as [st1 [e|]]; cbn [fst] in Hstep.
    + eapply loop_effect_trans; [exact Hstep|apply loop_effect_add_log].
    + exact Hstep.
  - apply loop_effect_add_log.
Qed.

Lemma main_loop_effect (nfp : string -> option method)
    (iterations : list (res (list (res bytes)))) (st : gcfg_state) :
  loop_effect st (main_loop nfp st iterations).
Proof.
  unfold main_loop. revert st.
  induction iterations as [|sel iterations IH]; intros st.
  - apply loop_effect_refl.
  - cbn [foldl]. eapply loop_effect_trans; [apply loop_iteration_effect|apply IH].
Qed.

(** X8. Over any run of the loop, with any parser object, the set of
    registered modules stays the same and there is one list of packets
    such that the queue of every module with an open queue is its former
    content followed by that list, in that order, while closed queues are
    untouched; packets_processed has grown by the length of that list. So
    all live modules are sent the same packets in the same order, nothing
    is ever taken off a queue, and packets_processed counts the packets
    fanned out. *)
Theorem queues_extended_uniformly (nfp : string -> option method)
    (st : gcfg_state) (iterations : list (res (list (res bytes)))) :
  let st' := main_loop nfp st iterations in
  exists delivered : list packet,
    module_objects st' = extend_queue delivered <$> module_objects st
    /\ dom (module_objects st') = dom (module_objects st)
    /\ packets_processed st'
       = packets_processed st + Z.of_nat (length delivered).
Proof.
  cbn zeta.
  destruct (main_loop_effect nfp iterations st)
    as (delivered & new & received & Hmods & Hproc & _).
  exists delivered. split; [exact Hmods|]. split; [|exact Hproc].
  rewrite Hmods. apply dom_fmap_L.
Qed.

(** X9. Over any run of the loop the log is only appended to, and
    neither counter ever decreases. *)
Theorem log_and_counters_only_grow (nfp : string -> option method)
    (st : gcfg_state) (iterations : list (res (list (res bytes)))) :
  let st' := main_loop nfp st iterations in
  main_log st `prefix_of` main_log st'
  /\ packets_total st <= packets_total st'
  /\ packets_processed st <= packets_processed st'.
Proof.
  cbn zeta.
  destruct (main_loop_effect nfp iterations st)
    as (delivered & new & received & _ & Hproc & Hlog & Htot).
  split; [exists new; exact Hlog|]. lia.
Qed.

Lemma handle_events_NetflowParser (events : list (res bytes)) (st : gcfg_state) :
  module_objects (handle_events NetflowParser st events).1 = module_objects st
  /\ packets_processed (handle_events NetflowParser st events).1
     = packets_processed st
  /\ main_log (handle_events NetflowParser st events).1 = main_log st.
Proof.
  revert st. induction events as [|recv events IH]; intros st.
  - repeat split.
  - cbn [handle_events]. destruct recv as [recv_data|e].
    + rewrite handle_event_NetflowParser. cbn. repeat split.
    + destruct e; cbn [handle_event]; try (cbn; repeat split; fail).
      apply IH.
Qed.

(** X10. With the parser class as it is written, the loop never hands a
    packet to any module and never counts one as processed, whatever
    datagrams arrive: its decoder call names a method the class does not
    define. All it adds to the log are the messages of its catch-all
    handler. *)
Theorem shipped_loop_never_dispatches (st : gcfg_state)
    (iterations : list (res (list (res bytes)))) :
  let st' := main_loop NetflowParser st iterations in
  module_objects st' = module_objects st
  /\ packets_processed st' = packets_processed st
  /\ exists new : list log_msg,
       main_log st' = main_log st ++ new
       /\ Forall (fun m => exists e, m = LoopException e) new.
Proof.
  cbn zeta. unfold main_loop. revert st.
  induction iterations as [|sel iterations IH]; intros st.
  - split; [reflexivity|]. split; [reflexivity|].
    exists []. rewrite app_nil_r. split; [reflexivity|constructor].
  - cbn [foldl].
    assert (Hstep : module_objects (loop_iteration NetflowParser st sel)
                    = module_objects st
                    /\ packets_processed (loop_iteration NetflowParser st sel)
                       = packets_processed st
                    /\ exists new,
                         main_log (loop_iteration NetflowParser st sel)
                         = main_log st ++ new
                         /\ Forall (fun m => exists e, m = LoopException e) new).
    { unfold loop_iteration. destruct sel as [events|e].
      - destruct (handle_events_NetflowParser events st) as (Hm & Hp & Hl).
        destruct (handle_events NetflowParser st events) as [st1 [e|]];
          cbn [fst] in *.
        + split; [exact Hm|]. split; [exact Hp|].
          exists [LoopException e]. cbn. rewrite Hl. split; [reflexivity|].
          repeat constructor. exists e. reflexivity.
        + split; [exact Hm|]. split; [exact Hp|].
          exists []. rewrite app_nil_r. split; [exact Hl|constructor].
      - split; [reflexivity|]. split; [reflexivity|].
        exists [LoopException e]. split; [reflexivity|].
        repeat constructor. exists e. reflexivity. }
    destruct Hstep as (Hm1 & Hp1 & new1 & Hl1 & Hf1).
    destruct (IH (loop_iteration NetflowParser st sel))
      as (Hm2 & Hp2 & new2 & Hl2 & Hf2).
    split; [congruence|]. split; [congruence|].
    exists (new1 ++ new2). rewrite Hl2, Hl1, app_assoc.
    split; [reflexivity|]. apply Forall_app. split; assumption.
Qed.

(* ===================================================================== *)
(** ** The detector: what is accumulated, and when it reports *)
(* ===================================================================== *)

Lemma update_flow_count (max_avg_packet_size : Q) (st : gmap Z entry) (f : flow)
    (dst src : Z) :
  all_dicts st ->
  npackets f ≠ 0 ->
  count_of (update_flow max_avg_packet_size st f).1 dst src
  = count_of st dst src + accrued_one max_avg_packet_size dst src f.
Proof.
  intros Hwf Hnz. unfold accrued_one.
  destruct (Qlt_le_dec _ _) as [Hsmall|Hlarge].
  - destruct (update_flow_small max_avg_packet_size st f Hwf Hnz Hsmall)
      as (srcs & Hsrcs & ->). cbn [fst].
    unfold count_of at 1. rewrite lookup_insert.
    destruct (decide (dst_addr f = dst)) as [<-|Hd].
    + rewrite lookup_insert.
      destruct (decide (src_addr f = src)) as [<-|Hs].
      * rewrite decide_True by (split; reflexivity). reflexivity.
      * rewrite decide_False by (intros [_ H]; contradiction).
        unfold count_of.
        destruct Hsrcs as [->|[-> ->]]; [|rewrite lookup_empty]; cbn; lia.
    + rewrite decide_False by (intros [H _]; contradiction).
      unfold count_of. lia.
  - rewrite update_flow_large; [cbn; lia|exact Hnz|].
    apply Qle_not_lt, Hlarge.
Qed.

Lemma update_flow_recorded (max_avg_packet_size : Q) (st : gmap Z entry) (f : flow)
    (dst src : Z) :
  all_dicts st ->
  npackets f ≠ 0 ->
  recorded (update_flow max_avg_packet_size st f).1 dst src
  <-> recorded st dst src
      \/ (small_flow max_avg_packet_size f
          /\ dst_addr f = dst /\ src_addr f = src).
Proof.
  intros Hwf Hnz. unfold small_flow.
  destruct (Qlt_le_dec (Qdiv (inject_Z (nbytes f)) (inject_Z (npackets f)))
                       max_avg_packet_size) as [Hsmall|Hlarge].
  - destruct (update_flow_small max_avg_packet_size st f Hwf Hnz Hsmall)
      as (srcs & Hsrcs & ->). cbn [fst]. unfold recorded.
    destruct (decide (dst_addr f = dst)) as [<-|Hd].
    + rewrite lookup_insert_eq. split.
      * intros (srcs' & [= <-] & Hin).
        rewrite lookup_insert in Hin.
        destruct (decide (src_addr f = src)) as [<-|Hs];
          [right; repeat split; assumption|].
        left. destruct Hsrcs as [Hs'|[_ ->]].
        -- exists srcs. split; assumption.
        -- rewrite lookup_empty in Hin. destruct Hin as [? Hin]. discriminate Hin.
      * intros [(srcs' & Hs' & Hin)|(_ & _ & <-)].
        -- eexists. split; [reflexivity|]. rewrite lookup_insert.
           destruct (decide (src_addr f = src)); [eexists; reflexivity|].
           destruct Hsrcs as [Hs''|[Hnone _]]; [|congruence].
           rewrite Hs' in Hs''. injection Hs'' as <-. exact Hin.
        -- eexists. split; [reflexivity|]. rewrite lookup_insert_eq.
           eexists. reflexivity.
    + rewrite lookup_insert_ne by exact Hd. split.
      * intros H. left. exact H.
      * intros [H|(_ & H & _)]; [exact H|contradiction].
  - rewrite update_flow_large; [|exact Hnz|apply Qle_not_lt, Hlarge]. cbn [fst].
    split; [intros H; left; exact H|].
    intros [H|(Hsmall & _)]; [exact H|].
    exfalso. exact (Qle_not_lt _ _ Hlarge Hsmall).
Qed.

(** What [update_state] does to a state of dictionaries when no flow of
    the packet has a zero packet count. *)
Lemma update_flows_accrue (max_avg_packet_size : Q) (flows : list flow)
    (st : gmap Z entry) :
  all_dicts st ->
  Forall (fun f => npackets f ≠ 0) flows ->
  exists st',
    update_flows max_avg_packet_size st flows = (st', None)
    /\ all_dicts st'
    /\ (forall dst src,
          count_of st' dst src
          = count_of st dst src + accrued max_avg_packet_size dst src flows)
    /\ (forall dst src,
          recorded st' dst src
          <-> recorded st dst src
              \/ exists f, f ∈ flows /\ small_flow max_avg_packet_size f
                           /\ dst_addr f = dst /\ src_addr f = src).
Proof.
  intros Hwf Hnz. revert st Hwf.
  induction Hnz as [|f flows Hf _ IH]; intros st Hwf.
  - exists st. split; [reflexivity|]. split; [exact Hwf|]. split.
    + intros dst src. cbn. lia.
    + intros dst src. split; [intros H; left; exact H|].
      intros [H|(f & Hin & _)]; [exact H|].
      exfalso. exact (not_elem_of_nil _ Hin).
  - destruct (update_flow_ok max_avg_packet_size st f Hwf Hf) as (st1 & Hstep & Hwf1).
    pose proof (update_flow_count max_avg_packet_size st f) as Hcount.
    pose proof (update_flow_recorded max_avg_packet_size st f) as Hrec.
    rewrite Hstep in Hcount, Hrec. cbn [fst] in Hcount, Hrec.
    destruct (IH st1 Hwf1) as (st' & Hrun & Hwf' & Hcount' & Hrec').
    exists st'. cbn [update_flows]. rewrite Hstep.
    split; [exact Hrun|]. split; [exact Hwf'|]. split.
    + intros dst src. rewrite Hcount', Hcount by assumption. cbn [accrued foldr].
      fold (accrued max_avg_packet_size dst src flows). lia.
    + intros dst src. rewrite Hrec', Hrec by assumption. split.
      * intros [[H|(Hs & Hd & Hsrc)]|(g & Hin & Hg)].
        -- left. exact H.
        -- right. exists f. split; [apply list_elem_of_here|]. repeat split; assumption.
        -- right. exists g. split; [apply list_elem_of_further, Hin|exact Hg].
      * intros [H|(g & Hin & Hg)]; [left; left; exact H|].
        apply elem_of_cons in Hin as [->|Hin].
        -- left. right. exact Hg.
        -- right. exists g. split; assumption.
Qed.


Lemma nonzero_sample_packet : Forall (fun f => npackets f ≠ 0) (pk_flows sample_packet).
Proof. repeat constructor; discriminate. Qed.




Lemma update_flows_app (max_avg_packet_size : Q) (fs1 fs2 : list flow)
    (st : gmap Z entry) :
  update_flows max_avg_packet_size st (fs1 ++ fs2)
  = match update_flows max_avg_packet_size st fs1 with
    | (st1, None) => update_flows max_avg_packet_size st1 fs2
    | (st1, Some e) => (st1, Some e)
    end.
Proof.
  revert st. induction fs1 as [|f fs1 IH]; intros st; [reflexivity|].
  cbn [app update_flows].
  destruct (update_flow max_avg_packet_size st f) as [st1 [e|]]; [reflexivity|].
  apply IH.
Qed.

(** X13. When a packet holds a flow with a zero packet count,
    [update_state] stops at the first such flow: the flows before it have
    been accrued and stay so, the flows after it are never looked at, and
    [ZeroDivisionError] leaves the call. *)
Theorem update_state_stops_at_zero (max_avg_packet_size : Q) (st : gmap Z entry)
    (hdr : header) (before after : list flow) (f0 : flow) :
  all_dicts st ->
  Forall (fun f => npackets f ≠ 0) before ->
  npackets f0 = 0 ->
  update_state max_avg_packet_size st (Packet hdr (before ++ f0 :: after))
  = ((update_state max_avg_packet_size st (Packet hdr before)).1,
     Some ZeroDivisionError).
Proof.
  intros Hwf Hnz Hzero. unfold update_state. cbn [pk_flows].
  rewrite update_flows_app.
  destruct (update_flows_accrue max_avg_packet_size before st Hwf Hnz)
    as (st1 & -> & _). cbn [update_flows fst].
  rewrite update_flow_zero_packets by exact Hzero. reflexivity.
Qed.

Lemma update_state_stops_at_zero_witness :
  update_state (1000 # 1) ∅
    (Packet (Header 5 4)
       (pk_flows sample_packet
        ++ Flow (ip 10 0 0 1) (ip 10 0 0 2) 1234 80 0 0 0 6
           :: pk_flows single_source_packet))
  = ((update_state (1000 # 1) ∅ (Packet (Header 5 4) (pk_flows sample_packet))).1,
     Some ZeroDivisionError).
Proof.
  apply (update_state_stops_at_zero (1000 # 1) ∅ (Header 5 4)).
  - exact all_dicts_empty.
  - exact nonzero_sample_packet.
  - reflexivity.
Defined.

(** X14. Raising either threshold can only remove targets: on a state
    built by [update_state], every destination returned with the higher
    ips_threshold and min_packets_per_source is also returned with the
    lower ones. *)
Theorem detect_ddos_targets_antitone (thr1 thr2 min1 min2 : Z) (st : gmap Z entry) :
  all_dicts st ->
  thr1 <= thr2 ->
  min1 <= min2 ->
  exists targets1 targets2 : list Z,
    (detect_ddos_targets thr1 min1 st).1 = Return targets1
    /\ (detect_ddos_targets thr2 min2 st).1 = Return targets2
    /\ targets2 ⊆ targets1.
Proof.
  intros Hwf Hthr Hmin. unfold detect_ddos_targets.
  assert (Hkeys : forall dst, dst ∈ dict_keys st -> is_Some (st !! dst))
    by (intros dst Hin; apply elem_of_dict_keys, Hin).
  destruct (collect_targets_exact thr1 min1 st (dict_keys st) Hwf Hkeys)
    as (t1 & -> & _ & Hmem1).
  destruct (collect_targets_exact thr2 min2 st (dict_keys st) Hwf Hkeys)
    as (t2 & -> & _ & Hmem2).
  exists t1, t2. split; [reflexivity|]. split; [reflexivity|].
  intros dst Hin. apply Hmem2 in Hin as (Hk & srcs & Hs & Hmany & Hall).
  apply Hmem1. split; [exact Hk|]. exists srcs. split; [exact Hs|].
  split; [lia|]. intros src count Hc. specialize (Hall src count Hc). lia.
Qed.

Lemma detect_ddos_targets_antitone_witness :
  exists targets1 targets2 : list Z,
    (detect_ddos_targets 1 10 sample_ips_state).1 = Return targets1
    /\ (detect_ddos_targets 1 60 sample_ips_state).1 = Return targets2
    /\ targets2 ⊆ targets1.
Proof.
  apply (detect_ddos_targets_antitone 1 1 10 60 sample_ips_state).
  - exact all_dicts_sample_ips_state.
  - lia.
  - lia.
Defined.

(** The state on which the interval test of an iteration finds the
    detector: the state before, with the packet of this iteration, if
    there is one, taken in. *)
Lemma run_iteration_quiet (analysis_interval : Q) (ips_threshold : Z)
    (max_avg_packet_size : Q) (min_packets_per_source : Z) (d : detector) (t : tick) :
  all_dicts (ips_state d) ->
  quiet_tick t ->
  let st1 := match got t with
             | Return pack => (update_state max_avg_packet_size (ips_state d) pack).1
             | Raise _ => ips_state d
             end in
  all_dicts st1
  /\ exists targets : list Z,
       (detect_ddos_targets ips_threshold min_packets_per_source st1).1
       = Return targets
       /\ run_iteration analysis_interval ips_threshold max_avg_packet_size
            min_packets_per_source d t
          = if Qlt_le_dec analysis_interval (Qminus (now_test t) (start_ts d))
            then (Detector ∅ (now_restart t)
                    (det_log d ++ (DetectedTarget <$> targets)), None)
            else (Detector st1 (start_ts d) (det_log d), None).
Proof.
  intros Hwf Hquiet. cbn zeta. unfold run_iteration, quiet_tick in *.
  assert (Hget : exists st1,
             match got t with
             | Return pack => update_state max_avg_packet_size (ips_state d) pack
             | Raise QueueEmpty => (ips_state d, None)
             | Raise e => (ips_state d, Some e)
             end = (st1, None)
             /\ all_dicts st1
             /\ st1 = match got t with
                      | Return pack =>
                          (update_state max_avg_packet_size (ips_state d) pack).1
                      | Raise _ => ips_state d
                      end).
  { destruct (got t) as [pack|e].
    - destruct (update_state_ok max_avg_packet_size (ips_state d) pack Hwf Hquiet)
        as (st1 & Heq & Hwf1).
      exists st1. rewrite Heq. repeat split. exact Hwf1.
    - destruct e; try contradiction. exists (ips_state d). repeat split. exact Hwf. }
  destruct Hget as (st1 & -> & Hwf1 & <-).
  split; [exact Hwf1|].
  unfold detect_ddos_targets.
  destruct (collect_targets_exact ips_threshold min_packets_per_source st1
              (dict_keys st1) Hwf1) as (targets & -> & _).
  { intros dst Hin. apply elem_of_dict_keys, Hin. }
  exists targets. split; [reflexivity|].
  destruct (Qlt_le_dec _ _); [|reflexivity].
  destruct targets; reflexivity.
Qed.

(** X15. Until the interval has elapsed nothing is reported and nothing
    is reset: over iterations in which nothing raises and whose clock is
    within analysis_interval of the window start, [run] writes no message
    and keeps the window start, and [ips_state] is the state obtained by
    taking in, one after the other, the packets received. *)
Theorem run_within_window (analysis_interval : Q) (ips_threshold : Z)
    (max_avg_packet_size : Q) (min_packets_per_source : Z)
    (d : detector) (ticks : list tick) :
  all_dicts (ips_state d) ->
  Forall (fun t => quiet_tick t /\ ~ window_over analysis_interval d t) ticks ->
  run_loop analysis_interval ips_threshold max_avg_packet_size
    min_packets_per_source d ticks
  = Detector (accumulate max_avg_packet_size (ips_state d) (packets_of ticks))
             (start_ts d) (det_log d).
Proof.
  destruct d as [st ts log0]. cbn [ips_state start_ts det_log].
  intros Hwf Hticks.
  assert (Hticks' : Forall (fun t => quiet_tick t
                      /\ ~ Qlt analysis_interval (Qminus (now_test t) ts)) ticks)
    by (eapply Forall_impl; [exact Hticks|]; intros t H; exact H).
  clear Hticks. revert st Hwf.
  induction Hticks' as [|t ticks [Hquiet Hin] _ IH]; intros st Hwf; [reflexivity|].
  cbn [run_loop].
  destruct (run_iteration_quiet analysis_interval ips_threshold
              max_avg_packet_size min_packets_per_source
              (Detector st ts log0) t Hwf Hquiet) as (Hwf1 & targets & _ & ->).
  cbn [ips_state start_ts det_log] in *.
  destruct (Qlt_le_dec _ _) as [Hover|_]; [contradiction|].
  rewrite IH by exact Hwf1.
  unfold packets_of. cbn [omap list_omap].
  destruct (got t) as [pack|e]; reflexivity.
Qed.

Lemma run_within_window_witness :
  run_loop (60 # 1) 1 (1000 # 1) 10 (Detector ∅ 0 [])
    [Tick (Return sample_packet) (10 # 1) (10 # 1);
     Tick (Raise QueueEmpty) (11 # 1) (11 # 1);
     Tick (Return single_source_packet) (60 # 1) (60 # 1)]
  = Detector
      (accumulate (1000 # 1) ∅
         (packets_of
            [Tick (Return sample_packet) (10 # 1) (10 # 1);
             Tick (Raise QueueEmpty) (11 # 1) (11 # 1);
             Tick (Return single_source_packet) (60 # 1) (60 # 1)]))
      0 [].
Proof.
  apply (run_within_window (60 # 1) 1 (1000 # 1) 10 (Detector ∅ 0 [])).
  - exact all_dicts_empty.
  - repeat constructor; try discriminate; cbn; intros H; discriminate H.
Defined.

(** X16. As long as no received flow has a zero packet count and the
    queue raises nothing but [queue.Empty], [run] never leaves its loop
    through the exception handler: over any such iterations its state
    stays one of dictionaries, and the only messages it writes are
    'Detected DDoS target' reports. *)
Theorem run_keeps_running (analysis_interval : Q) (ips_threshold : Z)
    (max_avg_packet_size : Q) (min_packets_per_source : Z)
    (d : detector) (ticks : list tick) :
  all_dicts (ips_state d) ->
  Forall quiet_tick ticks ->
  let d' := run_loop analysis_interval ips_threshold max_avg_packet_size
              min_packets_per_source d ticks in
  all_dicts (ips_state d')
  /\ exists new : list log_msg,
       det_log d' = det_log d ++ new
       /\ Forall (fun m => exists target, m = DetectedTarget target) new.
Proof.
  intros Hwf Hticks. cbn zeta. revert d Hwf.
  induction Hticks as [|t ticks Hquiet _ IH]; intros d Hwf.
  - split; [exact Hwf|]. exists []. rewrite app_nil_r.
    split; [reflexivity|constructor].
  - cbn [run_loop].
    destruct (run_iteration_quiet analysis_interval ips_threshold
                max_avg_packet_size min_packets_per_source d t Hwf Hquiet)
      as (Hwf1 & targets & _ & ->).
    destruct (Qlt_le_dec _ _) as [Hover|Hwithin].
    + destruct (IH (Detector ∅ (now_restart t)
                      (det_log d ++ (DetectedTarget <$> targets))))
        as (Hwf' & new & Hlog & Hall); [apply all_dicts_empty|].
      split; [exact Hwf'|].
      exists ((DetectedTarget <$> targets) ++ new).
      rewrite Hlog. cbn [det_log]. rewrite app_assoc.
      split; [reflexivity|]. apply Forall_app. split; [|exact Hall].
      apply Forall_fmap, Forall_forall. intros x _. exists x. reflexivity.
    + destruct (IH (Detector _ (start_ts d) (det_log d)) Hwf1)
        as (Hwf' & new & Hlog & Hall).
      split; [exact Hwf'|]. exists new. split; [exact Hlog|exact Hall].
Qed.

Lemma run_keeps_running_witness :
  let d' := run_loop (60 # 1) 1 (1000 # 1) 10 (Detector ∅ 0 [])
              [Tick (Return sample_packet) (10 # 1) (10 # 1);
               Tick (Raise QueueEmpty) (61 # 1) (61 # 1)] in
  all_dicts (ips_state d')
  /\ exists new : list log_msg,
       det_log d' = det_log (Detector ∅ 0 []) ++ new
       /\ Forall (fun m => exists target, m = DetectedTarget target) new.
Proof.
  apply (run_keeps_running (60 # 1) 1 (1000 # 1) 10 (Detector ∅ 0 [])).
  - exact all_dicts_empty.
  - repeat constructor; discriminate.
Defined.

(** X17. The interval test comes after the packet of the iteration has
    been taken in: in the iteration that crosses the window boundary, the
    targets reported are exactly what [detect_ddos_targets] returns on the
    state that includes the packet just received, one message per target,
    in the order returned; that packet is then discarded with the rest of
    the window. *)
Theorem boundary_report_includes_current_packet (analysis_interval : Q)
    (ips_threshold : Z) (max_avg_packet_size : Q) (min_packets_per_source : Z)
    (d : detector) (t : tick) (pack : packet) :
  all_dicts (ips_state d) ->
  got t = Return pack ->
  Forall (fun f => npackets f ≠ 0) (pk_flows pack) ->
  window_over analysis_interval d t ->
  exists targets : list Z,
    (detect_ddos_targets ips_threshold min_packets_per_source
       (update_state max_avg_packet_size (ips_state d) pack).1).1
    = Return targets
    /\ run_iteration analysis_interval ips_threshold max_avg_packet_size
         min_packets_per_source d t
       = (Detector ∅ (now_restart t)
            (det_log d ++ (DetectedTarget <$> targets)), None).
Proof.
  intros Hwf Hgot Hnz Hover.
  assert (Hquiet : quiet_tick t) by (unfold quiet_tick; rewrite Hgot; exact Hnz).
  destruct (run_iteration_quiet analysis_interval ips_threshold
              max_avg_packet_size min_packets_per_source d t Hwf Hquiet)
    as (_ & targets & Hdetect & Hrun).
  rewrite Hgot in Hdetect. exists targets. split; [exact Hdetect|].
  rewrite Hrun. unfold window_over in Hover.
  destruct (Qlt_le_dec _ _) as [_|Hle]; [reflexivity|].
  exfalso. exact (Qle_not_lt _ _ Hle Hover).
Qed.

Lemma boundary_report_includes_current_packet_witness :
  exists targets : list Z,
    (detect_ddos_targets 1 10 (update_state (1000 # 1) ∅ sample_packet).1).1
    = Return targets
    /\ run_iteration (60 # 1) 1 (1000 # 1) 10 (Detector ∅ 0 [])
         (Tick (Return sample_packet) (61 # 1) (62 # 1))
       = (Detector ∅ (62 # 1) ([] ++ (DetectedTarget <$> targets)), None).
Proof.
  apply (boundary_report_includes_current_packet (60 # 1) 1 (1000 # 1) 10
           (Detector ∅ 0 []) (Tick (Return sample_packet) (61 # 1) (62 # 1))
           sample_packet).
  - exact all_dicts_empty.
  - reflexivity.
  - exact nonzero_sample_packet.
  - reflexivity.
Defined.

(* ===================================================================== *)
(** ** The example module: port counts and the report *)
(* ===================================================================== *)

Lemma od_get_set_eq (k v : Z) (d : list (Z * Z)) : od_get k (od_set k v d) = Some v.
Proof.
  induction d as [|[k' v'] d IH]; cbn.
  - rewrite decide_True by reflexivity. reflexivity.
  - destruct (decide (k' = k)) as [->|Hne]; cbn.
    + rewrite decide_True by reflexivity. reflexivity.
    + rewrite decide_False by exact Hne. exact IH.
Qed.

Lemma od_get_set_ne (k k' v : Z) (d : list (Z * Z)) :
  k ≠ k' -> od_get k' (od_set k v d) = od_get k' d.
Proof.
  intros Hne. induction d as [|[k0 v0] d IH]; cbn.
  - rewrite decide_False by exact Hne. reflexivity.
  - destruct (decide (k0 = k)) as [->|Hk0]; cbn.
    + rewrite !decide_False by exact Hne. reflexivity.
    + destruct (decide (k0 = k')); [reflexivity|exact IH].
Qed.

Lemma od_set_keys (k v : Z) (d : list (Z * Z)) :
  (od_set k v d).*1 = if decide (k ∈ d.*1) then d.*1 else d.*1 ++ [k].
Proof.
  induction d as [|[k' v'] d IH]; cbn.
  - rewrite decide_False by apply not_elem_of_nil. reflexivity.
  - destruct (decide (k' = k)) as [->|Hne]; cbn.
    + rewrite decide_True by apply list_elem_of_here. reflexivity.
    + rewrite IH. destruct (decide (k ∈ d.*1)) as [Hin|Hout].
      * rewrite decide_True by (apply list_elem_of_further, Hin). reflexivity.
      * rewrite decide_False; [reflexivity|].
        intros [Heq|Hin]%elem_of_cons; [congruence|contradiction].
Qed.

Lemma od_set_NoDup (k v : Z) (d : list (Z * Z)) :
  NoDup d.*1 -> NoDup (od_set k v d).*1.
Proof.
  intros Hnd. rewrite od_set_keys. destruct (decide (k ∈ d.*1)); [exact Hnd|].
  apply NoDup_app. split; [exact Hnd|]. split; [|apply NoDup_singleton].
  intros x Hx ->%list_elem_of_singleton. contradiction.
Qed.

Lemma od_get_Some_elem (k v : Z) (d : list (Z * Z)) :
  od_get k d = Some v -> (k, v) ∈ d.
Proof.
  induction d as [|[k' v'] d IH]; cbn; [discriminate|].
  destruct (decide (k' = k)) as [->|_].
  - intros [= ->]. apply list_elem_of_here.
  - intros H. apply list_elem_of_further, IH, H.
Qed.

Lemma od_get_elem_NoDup (k v : Z) (d : list (Z * Z)) :
  NoDup d.*1 -> (k, v) ∈ d -> od_get k d = Some v.
Proof.
  induction d as [|[k' v'] d IH]; cbn; intros Hnd Hin.
  - exfalso. exact (not_elem_of_nil _ Hin).
  - apply NoDup_cons in Hnd as [Hk' Hnd].
    apply elem_of_cons in Hin as [[= -> ->]|Hin].
    + rewrite decide_True by reflexivity. reflexivity.
    + destruct (decide (k' = k)) as [->|_]; [|exact (IH Hnd Hin)].
      exfalso. apply Hk'. apply list_elem_of_fmap. exists (k, v).
      split; [reflexivity|exact Hin].
Qed.

Lemma od_set_positive (k v : Z) (d : list (Z * Z)) :
  1 <= v -> Forall (fun kv => 1 <= kv.2) d ->
  Forall (fun kv => 1 <= kv.2) (od_set k v d).
Proof.
  intros Hv Hd. induction Hd as [|[k' v'] d Hkv Hd IH]; cbn.
  - repeat constructor. exact Hv.
  - destruct (decide (k' = k)); constructor; assumption.
Qed.

(** [d[k] += 1] as one update. *)
Lemma od_incr_set (k : Z) (d : list (Z * Z)) :
  od_incr k d = od_set k (freq d k + 1) d.
Proof.
  unfold od_incr, freq. destruct (od_get k d) as [v|] eqn:Hget; cbn; [reflexivity|].
  clear Hget. induction d as [|[k' v'] d IH]; cbn.
  - rewrite decide_True by reflexivity. reflexivity.
  - destruct (decide (k' = k)) as [->|Hne]; cbn.
    + rewrite decide_True by reflexivity. reflexivity.
    + rewrite decide_False by exact Hne. f_equal. exact IH.
Qed.

Lemma freq_od_incr (k p : Z) (d : list (Z * Z)) :
  freq (od_incr k d) p = freq d p + (if decide (k = p) then 1 else 0).
Proof.
  rewrite od_incr_set. unfold freq at 1.
  destruct (decide (k = p)) as [->|Hne].
  - rewrite od_get_set_eq. reflexivity.
  - rewrite od_get_set_ne by exact Hne. unfold freq. lia.
Qed.

Lemma freq_nonneg (d : list (Z * Z)) (p : Z) :
  Forall (fun kv => 1 <= kv.2) d -> 0 <= freq d p.
Proof.
  intros Hd. unfold freq. destruct (od_get p d) as [v|] eqn:Hget; cbn; [|lia].
  apply od_get_Some_elem in Hget.
  rewrite Forall_forall in Hd. specialize (Hd _ Hget). cbn in Hd. lia.
Qed.

Lemma od_incr_ok (k : Z) (d : list (Z * Z)) : freq_map_ok d -> freq_map_ok (od_incr k d).
Proof.
  intros [Hnd Hpos]. rewrite od_incr_set. split.
  - apply od_set_NoDup, Hnd.
  - apply od_set_positive; [|exact Hpos]. pose proof (freq_nonneg d k Hpos). lia.
Qed.

Lemma count_flow_ok (d : list (Z * Z)) (f : flow) :
  freq_map_ok d -> freq_map_ok (count_flow d f).
Proof.
  intros Hd. unfold count_flow. destruct (decide _); [|exact Hd].
  apply od_incr_ok, od_incr_ok, Hd.
Qed.

Lemma freq_count_flow (d : list (Z * Z)) (f : flow) (p : Z) :
  freq (count_flow d f) p = freq d p + uses_one p f.
Proof.
  unfold count_flow, uses_one. destruct (decide _); [|lia].
  rewrite !freq_od_incr. lia.
Qed.

Lemma count_flows_spec (flows : list flow) (d : list (Z * Z)) :
  freq_map_ok d ->
  freq_map_ok (foldl count_flow d flows)
  /\ forall p, freq (foldl count_flow d flows) p = freq d p + port_uses p flows.
Proof.
  revert d. induction flows as [|f flows IH]; intros d Hd.
  - split; [exact Hd|]. intros p. cbn [foldl port_uses foldr]. lia.
  - cbn [foldl]. destruct (IH (count_flow d f) (count_flow_ok d f Hd)) as [Hok Hfreq].
    split; [exact Hok|]. intros p.
    rewrite Hfreq, freq_count_flow. cbn [port_uses foldr].
    fold (port_uses p flows). lia.
Qed.

Lemma port_uses_app (p : Z) (fs1 fs2 : list flow) :
  port_uses p (fs1 ++ fs2) = port_uses p fs1 + port_uses p fs2.
Proof.
  induction fs1 as [|f fs1 IH]; cbn; [reflexivity|].
  fold (port_uses p (fs1 ++ fs2)). fold (port_uses p fs1). lia.
Qed.

Lemma example_loop_spec (gets : list (res packet)) (d : list (Z * Z)) :
  freq_map_ok d ->
  Forall get_ok gets ->
  exists d',
    example_loop d gets = (d', None)
    /\ freq_map_ok d'
    /\ forall p, freq d' p = freq d p + port_uses p (flows_of gets).
Proof.
  intros Hd Hgets. revert d Hd.
  induction Hgets as [|g gets Hg _ IH]; intros d Hd.
  - exists d. split; [reflexivity|]. split; [exact Hd|]. intros p.
    unfold flows_of. cbn [omap list_omap concat port_uses foldr]. lia.
  - destruct g as [pack|e].
    + cbn [example_loop].
      destruct (count_flows_spec (pk_flows pack) d Hd) as [Hok Hfreq].
      destruct (IH (count_packet d pack) Hok) as (d' & Hrun & Hok' & Hfreq').
      exists d'. split; [exact Hrun|]. split; [exact Hok'|].
      intros p. rewrite Hfreq'. unfold count_packet. rewrite Hfreq.
      unfold flows_of. cbn [omap list_omap concat].
      rewrite port_uses_app. fold (flows_of gets). lia.
    + destruct e; try contradiction. cbn [example_loop].
      destruct (IH d Hd) as (d' & Hrun & Hok' & Hfreq').
      exists d'. split; [exact Hrun|]. split; [exact Hok'|exact Hfreq'].
Qed.

Lemma insert_by_freq_Permutation (x : Z * Z) (l : list (Z * Z)) :
  insert_by_freq x l ≡ₚ x :: l.
Proof.
  induction l as [|y l IH]; cbn; [reflexivity|].
  destruct (decide (x.2 < y.2)); [|reflexivity].
  rewrite IH. apply Permutation_swap.
Qed.

Lemma sorted_by_freq_Permutation (l : list (Z * Z)) : sorted_by_freq l ≡ₚ l.
Proof.
  induction l as [|x l IH]; cbn; [reflexivity|].
  rewrite insert_by_freq_Permutation. fold (sorted_by_freq l). rewrite IH. reflexivity.
Qed.

Lemma insert_by_freq_sorted (x : Z * Z) (l : list (Z * Z)) :
  StronglySorted by_freq l -> StronglySorted by_freq (insert_by_freq x l).
Proof.
  induction l as [|y l IH]; cbn; intros Hl.
  - repeat constructor.
  - apply StronglySorted_cons in Hl as [Hy Hl].
    destruct (decide (x.2 < y.2)) as [Hlt|Hge].
    + apply StronglySorted_cons. split; [|exact (IH Hl)].
      rewrite insert_by_freq_Permutation. constructor; [|exact Hy].
      unfold by_freq. lia.
    + apply StronglySorted_cons. split.
      * constructor; [unfold by_freq; lia|].
        eapply Forall_impl; [exact Hy|]. unfold by_freq. intros z Hz. lia.
      * apply StronglySorted_cons. split; assumption.
Qed.

Lemma sorted_by_freq_sorted (l : list (Z * Z)) : StronglySorted by_freq (sorted_by_freq l).
Proof.
  induction l as [|x l IH]; cbn; [constructor|].
  apply insert_by_freq_sorted, IH.
Qed.

Lemma StronglySorted_lookup_lt {A} (R : A -> A -> Prop) (l : list A) (i j : nat) (a b : A) :
  StronglySorted R l -> (i < j)%nat -> l !! i = Some a -> l !! j = Some b -> R a b.
Proof.
  intros Hl. revert i j. induction Hl as [|x l Hl IH Hx]; intros i j Hij Hi Hj.
  - discriminate.
  - destruct j as [|j]; [lia|]. cbn in Hj. destruct i as [|i]; cbn in Hi.
    + injection Hi as <-. rewrite Forall_forall in Hx.
      apply Hx. eapply list_elem_of_lookup_2, Hj.
    + apply (IH i j); [lia|assumption|assumption].
Qed.


Lemma elem_of_keys_od_get (p : Z) (d : list (Z * Z)) :
  p ∈ d.*1 <-> is_Some (od_get p d).
Proof.
  induction d as [|[k v] d IH]; cbn.
  - split; [intros H; exfalso; exact (not_elem_of_nil _ H)|intros [? H]; discriminate H].
  - rewrite elem_of_cons, IH. destruct (decide (k = p)) as [->|Hne].
    + split; [intros _; eexists; reflexivity|intros _; left; reflexivity].
    + split; [intros [H|H]; [congruence|exact H]|intros H; right; exact H].
Qed.

Lemma freq_map_key_iff (d : list (Z * Z)) (p : Z) :
  freq_map_ok d -> (p ∈ d.*1 <-> 0 < freq d p).
Proof.
  intros [_ Hpos]. rewrite elem_of_keys_od_get. unfold freq. split.
  - intros [c Hc]. rewrite Hc. cbn. apply od_get_Some_elem in Hc.
    rewrite Forall_forall in Hpos. specialize (Hpos _ Hc). cbn in Hpos. lia.
  - destruct (od_get p d) as [c|]; cbn; [intros _; eexists; reflexivity|lia].
Qed.

Lemma freq_map_ok_nil : freq_map_ok [].
Proof. split; constructor. Qed.

(** X18. When no [get] fails, the map that the example module has built
    by the time it stops holds each port once, and the count of a port is
    the number of times it occurs as source port or as destination port of
    a TCP or UDP flow among all packets received; a port is in the map
    exactly when that number is positive, and flows of other protocols
    count for nothing. *)
Theorem example_counts_ports (gets : list (res packet)) :
  Forall get_ok gets ->
  exists port_freq_map : list (Z * Z),
    example_loop [] gets = (port_freq_map, None)
    /\ NoDup port_freq_map.*1
    /\ (forall p, freq port_freq_map p = port_uses p (flows_of gets))
    /\ (forall p, p ∈ port_freq_map.*1 <-> 0 < port_uses p (flows_of gets)).
Proof.
  intros Hgets.
  destruct (example_loop_spec gets [] freq_map_ok_nil Hgets) as (d & Hrun & Hok & Hfreq).
  exists d. split; [exact Hrun|]. split; [exact (proj1 Hok)|].
  assert (Hf : forall p, freq d p = port_uses p (flows_of gets)).
  { intros p. rewrite Hfreq. unfold freq. cbn. lia. }
  split; [exact Hf|]. intros p. rewrite <- Hf. apply freq_map_key_iff, Hok.
Qed.

Lemma get_ok_mixed_gets : Forall get_ok mixed_gets.
Proof. repeat constructor. Qed.

Lemma example_counts_ports_witness :
  exists port_freq_map : list (Z * Z),
    example_loop [] mixed_gets = (port_freq_map, None)
    /\ NoDup port_freq_map.*1
    /\ (forall p, freq port_freq_map p = port_uses p (flows_of mixed_gets))
    /\ (forall p, p ∈ port_freq_map.*1 <-> 0 < port_uses p (flows_of mixed_gets)).
Proof.
  apply (example_counts_ports mixed_gets). exact get_ok_mixed_gets.
Defined.

(** X19. When no [get] fails, the example module ends by logging one
    report. It lists at most 10 ports, none twice, each of them used by
    some TCP or UDP flow received; the ports are in order of decreasing
    use; no port left out is used more than a port listed; and if fewer
    than 10 are listed, every port in use is listed. *)
Theorem example_run_reports_top_ports (gets : list (res packet)) :
  Forall get_ok gets ->
  let uses := fun p => port_uses p (flows_of gets) in
  exists ports : list Z,
    example_run gets = [TopPorts 10 ports]
    /\ (length ports <= 10)%nat
    /\ NoDup ports
    /\ (forall p, p ∈ ports -> 0 < uses p)
    /\ (forall i j p q, (i <= j)%nat -> ports !! i = Some p -> ports !! j = Some q ->
                        uses q <= uses p)
    /\ (forall p q, p ∈ ports -> q ∉ ports -> uses q <= uses p)
    /\ ((length ports < 10)%nat -> forall q, 0 < uses q -> q ∈ ports).
Proof.
  intros Hgets. cbn zeta.
  destruct (example_loop_spec gets [] freq_map_ok_nil Hgets)
    as (d & Hrun & [Hnd Hpos] & Hfreq).
  assert (Hf : forall p, freq d p = port_uses p (flows_of gets))
    by (intros p; rewrite Hfreq; unfold freq; cbn; lia).
  unfold example_run. rewrite Hrun. cbn zeta.
  set (S := sorted_by_freq d).
  assert (HS : S ≡ₚ d) by apply sorted_by_freq_Permutation.
  assert (Hsorted : StronglySorted by_freq S) by apply sorted_by_freq_sorted.
  assert (Huse : forall p c, (p, c) ∈ S -> port_uses p (flows_of gets) = c /\ 1 <= c).
  { intros p c Hin. rewrite HS in Hin. split.
    - rewrite <- Hf. unfold freq. rewrite (od_get_elem_NoDup p c d Hnd Hin). reflexivity.
    - rewrite Forall_forall in Hpos. exact (Hpos _ Hin). }
  assert (Hsplit : S = take 10 S ++ drop 10 S) by (symmetry; apply take_drop).
  assert (Htop : forall p, p ∈ (take 10 S).*1 -> exists c, (p, c) ∈ take 10 S).
  { intros p ([p' c] & -> & Hin)%list_elem_of_fmap. exists c. exact Hin. }
  assert (HinS : forall x, x ∈ take 10 S -> x ∈ S).
  { intros x Hx. rewrite Hsplit. apply elem_of_app. left. exact Hx. }
  exists (take 10 S).*1. split; [reflexivity|]. split; [|split; [|split; [|split; [|split]]]].
  - rewrite length_fmap, length_take. lia.
  - rewrite fmap_take. eapply sublist_NoDup; [|apply sublist_take].
    rewrite HS. exact Hnd.
  - intros p Hp. destruct (Htop p Hp) as [c Hc].
    destruct (Huse p c (HinS _ Hc)) as [-> Hc1]. lia.
  - intros i j p q Hij Hi Hj.
    rewrite list_lookup_fmap in Hi, Hj.
    destruct (take 10 S !! i) as [[p' c]|] eqn:Hi'; [|discriminate].
    destruct (take 10 S !! j) as [[q' c']|] eqn:Hj'; [|discriminate].
    cbn in Hi, Hj. injection Hi as ->. injection Hj as ->.
    destruct (Huse p c (HinS _ (list_elem_of_lookup_2 _ _ _ Hi'))) as [-> _].
    destruct (Huse q c' (HinS _ (list_elem_of_lookup_2 _ _ _ Hj'))) as [-> _].
    destruct (decide (i = j)) as [->|Hne].
    + rewrite Hi' in Hj'. injection Hj' as _ ->. lia.
    + assert (Hs : StronglySorted by_freq (take 10 S))
        by (rewrite Hsplit in Hsorted; exact (StronglySorted_app_1_l _ _ _ Hsorted)).
      exact (StronglySorted_lookup_lt by_freq _ i j _ _ Hs ltac:(lia) Hi' Hj').
  - intros p q Hp Hq. destruct (Htop p Hp) as [c Hc].
    destruct (Huse p c (HinS _ Hc)) as [Hpc Hc1]. rewrite Hpc.
    rewrite <- (Hf q). unfold freq.
    destruct (od_get q d) as [c'|] eqn:Hget; cbn; [|lia].
    apply od_get_Some_elem in Hget. rewrite <- HS, Hsplit in Hget.
    apply elem_of_app in Hget as [Hin|Hin].
    + exfalso. apply Hq. apply list_elem_of_fmap. exists (q, c').
      split; [reflexivity|exact Hin].
    + rewrite Hsplit in Hsorted.
      exact (StronglySorted_app_1_elem_of _ _ _ _ _ Hsorted Hc Hin).
  - intros Hshort q Hq. rewrite length_fmap, length_take in Hshort.
    rewrite take_ge by lia.
    rewrite <- (Hf q) in Hq. apply freq_map_key_iff in Hq; [|split; assumption].
    rewrite HS. exact Hq.
Qed.

Lemma example_run_reports_top_ports_witness :
  let uses := fun p => port_uses p (flows_of mixed_gets) in
  exists ports : list Z,
    example_run mixed_gets = [TopPorts 10 ports]
    /\ (length ports <= 10)%nat
    /\ NoDup ports
    /\ (forall p, p ∈ ports -> 0 < uses p)
    /\ (forall i j p q, (i <= j)%nat -> ports !! i = Some p -> ports !! j = Some q ->
                        uses q <= uses p)
    /\ (forall p q, p ∈ ports -> q ∉ ports -> uses q <= uses p)
    /\ ((length ports < 10)%nat -> forall q, 0 < uses q -> q ∈ ports).
Proof.
  apply (example_run_reports_top_ports mixed_gets). exact get_ok_mixed_gets.
Defined.

Example example_run_mixed_gets :
  example_run mixed_gets = [TopPorts 10 [80; 1234; 5555; 5353; 53]].
Proof. vm_compute. reflexivity. Qed.

Lemma example_loop_app (gets1 gets2 : list (res packet)) (d : list (Z * Z)) :
  example_loop d (gets1 ++ gets2)
  = match example_loop d gets1 with
    | (d1, None) => example_loop d1 gets2
    | (d1, Some e) => (d1, Some e)
    end.
Proof.
  revert d. induction gets1 as [|g gets1 IH]; intros d; [reflexivity|].
  cbn [app example_loop]. destruct g as [pack|e]; [apply IH|].
  destruct e; try reflexivity. apply IH.
Qed.

(** X20. If a [get] raises anything but [queue.Empty], the example module
    loses its report: whatever it has counted so far and whatever would
    have come next, all it logs is the exception. *)
Theorem example_run_failure_drops_report (gets1 gets2 : list (res packet)) (e : exn) :
  Forall get_ok gets1 ->
  e ≠ QueueEmpty ->
  example_run (gets1 ++ Raise e :: gets2) = [ExampleExited e].
Proof.
  intros Hgets He. unfold example_run. rewrite example_loop_app.
  destruct (example_loop_spec gets1 [] freq_map_ok_nil Hgets) as (d & -> & _).
  cbn [example_loop]. destruct e; try reflexivity. contradiction.
Qed.

Lemma example_run_failure_drops_report_witness :
  example_run (mixed_gets ++ Raise QueueClosed :: [Return sample_packet])
  = [ExampleExited QueueClosed].
Proof.
  apply (example_run_failure_drops_report mixed_gets [Return sample_packet] QueueClosed).
  - exact get_ok_mixed_gets.
  - discriminate.
Defined.

